(** * EV route planner: a shallow embedding of the front end and of the
      planning core, with the properties of its specification.

    The repository's sources are the React front end: the API helper
    ([getEvModels], [getPrediction]), the [App] component (state, handlers,
    trip summary) and the [Map] component (station markers).  The planning
    core (range estimator, feasibility evaluator, stop selector) lives in the
    back end, which is not part of the sources; it is modelled from the
    specification in module [Planner].

    JavaScript values are embedded as the data [JSON.parse] produces, plus
    [undefined]; exceptions are explicit completions; calls to the outside
    (fetch, console) are recorded as a trace of events. *)

From Stdlib Require Import QArith Qabs Lqa ZArith String List.
From stdpp Require Import base option list strings gmap pretty.

Local Open Scope string_scope.
Local Open Scope list_scope.
Set Warnings "-register-all".

(** ** JavaScript values and the operators the sources use *)

Module JS.

(** A JavaScript number: a finite double (a rational), an infinity or NaN. *)
Inductive number :=
| NaN
| NegInf
| Fin (q : Q)
| PosInf.

Inductive value :=
| VUndefined
| VNull
| VBool (b : bool)
| VNum (n : number)
| VStr (s : string)
| VArr (items : list value)
| VObj (fields : list (string * value)).

(** What a [throw] carries. *)
Inductive error :=
| TypeError
| SyntaxError
| NetworkError.

(** Outcome of evaluating an expression or a statement list.  [Unmodelled]
    marks the conversions this embedding leaves out (a relational operator
    applied to a string, an array or an object, which needs the string form
    of the operand); it is not an exception and no handler catches it. *)
Inductive completion (A : Type) :=
| Normal (a : A)
| Throw (e : error)
| Unmodelled.

Arguments Normal {A} a.
Arguments Throw {A} e.
Arguments Unmodelled {A}.

Definition num_of_nat (n : nat) : value := VNum (Fin (inject_Z (Z.of_nat n))).
Definition num_of_Z (z : Z) : value := VNum (Fin (inject_Z z)).

(** ToBoolean. *)
Definition truthy (v : value) : bool :=
  match v with
  | VUndefined | VNull => false
  | VBool b => b
  | VNum NaN => false
  | VNum (Fin q) => negb (Qeq_bool q 0)
  | VNum _ => true
  | VStr s => negb (String.eqb s "")
  | VArr _ | VObj _ => true
  end.

(** [null] or [undefined]: the values a property cannot be read from. *)
Definition nullish (v : value) : bool :=
  match v with
  | VUndefined | VNull => true
  | _ => false
  end.

(** [a || b] on values already evaluated (the sources' right operands are
    literals or state cells, which cannot throw). *)
Definition js_or (a b : value) : value := if truthy a then a else b.

Fixpoint assoc (k : string) (fields : list (string * value)) : option value :=
  match fields with
  | [] => None
  | (k', v) :: rest => if String.eqb k k' then Some v else assoc k rest
  end.

(** [v.p] for a property name [p] that is neither an array index nor an
    inherited method: reading from [undefined] or [null] throws. *)
Definition get (v : value) (p : string) : completion value :=
  match v with
  | VUndefined | VNull => Throw TypeError
  | VObj fields => Normal (default VUndefined (assoc p fields))
  | VArr items =>
      Normal (if String.eqb p "length" then num_of_nat (length items) else VUndefined)
  | VStr s =>
      Normal (if String.eqb p "length" then num_of_nat (String.length s) else VUndefined)
  | VBool _ | VNum _ => Normal VUndefined
  end.

(** [v?.p]. *)
Definition optget (v : value) (p : string) : value :=
  match v with
  | VUndefined | VNull => VUndefined
  | _ => match get v p with Normal x => x | _ => VUndefined end
  end.

(** [v[i]] for a numeric index. *)
Definition index (v : value) (i : nat) : completion value :=
  match v with
  | VUndefined | VNull => Throw TypeError
  | VArr items => Normal (default VUndefined (items !! i))
  | VStr s =>
      Normal (match String.get i s with
              | Some c => VStr (String c EmptyString)
              | None => VUndefined
              end)
  | VObj fields => Normal (default VUndefined (assoc (pretty i) fields))
  | VBool _ | VNum _ => Normal VUndefined
  end.

(** ToNumber on the primitives that need no string conversion. *)
Definition to_number (v : value) : option number :=
  match v with
  | VUndefined => Some NaN
  | VNull => Some (Fin 0)
  | VBool b => Some (Fin (if b then 1 else 0))
  | VNum n => Some n
  | VStr _ | VArr _ | VObj _ => None
  end.

(** The abstract relational comparison [x < y] on numbers; [None] is the
    specification's "undefined" (an operand is NaN). *)
Definition num_lt (x y : number) : option bool :=
  match x, y with
  | NaN, _ | _, NaN => None
  | Fin a, Fin b => Some (negb (Qle_bool b a))
  | NegInf, NegInf => Some false
  | NegInf, _ => Some true
  | _, NegInf => Some false
  | PosInf, _ => Some false
  | Fin _, PosInf => Some true
  end.

(** [a > b]: [b < a], with "undefined" read as [false]. *)
Definition js_gt (a b : value) : completion bool :=
  match to_number a, to_number b with
  | Some x, Some y => Normal (default false (num_lt y x))
  | _, _ => Unmodelled
  end.

(** [arr.slice(0, n)]. *)
Definition slice0 (n : nat) (items : list value) : list value := take n items.

(** *** Sequencing completions *)

Definition cbind {A B} (c : completion A) (f : A -> completion B) : completion B :=
  match c with
  | Normal a => f a
  | Throw e => Throw e
  | Unmodelled => Unmodelled
  end.

(** [arr.map(f)] and [arr.forEach(f)] with a callback that may throw: the
    first exception ends the loop. *)
Fixpoint map_completion {A B} (f : A -> completion B) (l : list A) : completion (list B) :=
  match l with
  | [] => Normal []
  | x :: rest =>
      cbind (f x) (fun y => cbind (map_completion f rest) (fun ys => Normal (y :: ys)))
  end.

End JS.

Export JS.

Notation "'let*' x ':=' c 'in' k" := (cbind c (fun x => k))
  (at level 10, x name, c at level 100, k at level 200).

(** ** The API helper (api.js): [getEvModels], [getPrediction] *)

Module Api.

Definition BASE : string := "http://127.0.0.1:8000".

(** A request handed to [fetch].  The body is the payload object that the
    source passes through [JSON.stringify]. *)
Record request := {
  req_url : string;
  req_method : string;
  req_headers : list (string * string);
  req_body : option value
}.

(** What the source reads of a [Response]: [ok], [status], and the two body
    readers, each of which resolves ([inr]) or rejects ([inl]). *)
Record response := {
  ok : bool;
  status : nat;
  text : error + string;
  json : error + value
}.

(** [fetch] either rejects (network failure) or resolves to a response. *)
Inductive fetch_outcome :=
| FetchRejected
| FetchResolved (r : response).

Definition network := request -> fetch_outcome.

Inductive logarg :=
| LStr (s : string)
| LNum (n : nat)
| LErr (e : error).

Inductive event :=
| EFetch (r : request)
| EConsoleError (args : list logarg).

(** A computation: its completion and the events it caused, in order. *)
Definition M (A : Type) : Type := completion A * list event.

Definition ret {A} (a : A) : M A := (Normal a, []).
Definition lift {A} (c : completion A) : M A := (c, []).

(** [await p] for a promise that has settled. *)
Definition await {A} (p : error + A) : M A :=
  match p with
  | inl e => (Throw e, [])
  | inr a => (Normal a, [])
  end.

Definition emit (ev : event) : M unit := (Normal tt, [ev]).

Definition bind {A B} (m : M A) (f : A -> M B) : M B :=
  match m with
  | (Normal a, t) => let '(r, t') := f a in (r, t ++ t')
  | (Throw e, t) => (Throw e, t)
  | (Unmodelled, t) => (Unmodelled, t)
  end.

(** [try { m } catch (err) { h err }]. *)
Definition try_catch {A} (m : M A) (h : error -> M A) : M A :=
  match m with
  | (Throw e, t) => let '(r, t') := h e in (r, t ++ t')
  | _ => m
  end.

(** [await fetch(...)]. *)
Definition fetch (net : network) (r : request) : M response :=
  (match net r with
   | FetchRejected => Throw NetworkError
   | FetchResolved res => Normal res
   end, [EFetch r]).

(** [{ error: msg }]. *)
Definition error_object (msg : string) : value := VObj [("error", VStr msg)].

(** The request of [getEvModels]: a plain GET. *)
Definition models_request : request :=
  {| req_url := BASE +:+ "/ev-models"; req_method := "GET";
     req_headers := []; req_body := None |}.

(** The request of [getPrediction]: a POST of the JSON payload. *)
Definition prediction_request (from_location to_location ev_model_id battery_percent : value)
    : request :=
  {| req_url := BASE +:+ "/predict-route"; req_method := "POST";
     req_headers := [("Content-Type", "application/json")];
     req_body := Some (VObj [("from_location", from_location);
                             ("to_location", to_location);
                             ("ev_model_id", ev_model_id);
                             ("battery_percent", battery_percent)]) |}.

Definition getEvModels (net : network) : M value :=
  try_catch
    (bind (fetch net models_request) (fun res =>
     if negb (ok res) then
       bind (await (text res)) (fun txt =>
       bind (emit (EConsoleError [LStr "getEvModels failed"; LNum (status res); LStr txt])) (fun _ =>
       ret (error_object ("Failed to load EV models: " +:+ pretty (status res)))))
     else
       bind (await (json res)) (fun data =>
       bind (lift (get data "models")) (fun models =>
       ret (js_or models (VArr []))))))
    (fun err =>
       bind (emit (EConsoleError [LStr "getEvModels error"; LErr err])) (fun _ =>
       ret (error_object "Failed to fetch EV models"))).

Definition getPrediction (net : network)
    (from_location to_location ev_model_id battery_percent : value) : M value :=
  try_catch
    (bind (fetch net (prediction_request from_location to_location
                        ev_model_id battery_percent)) (fun res =>
     if negb (ok res) then
       bind (await (text res)) (fun txt =>
       bind (emit (EConsoleError [LStr "Prediction API response not ok";
                                  LNum (status res); LStr txt])) (fun _ =>
       ret (error_object ("Prediction API failed: " +:+ pretty (status res)))))
     else
       bind (await (json res)) (fun data =>
       ret data)))
    (fun err =>
       bind (emit (EConsoleError [LStr "Prediction API Error:"; LErr err])) (fun _ =>
       ret (error_object "Failed to fetch prediction"))).

(** *** What the callers are promised *)

(** The requests a trace handed to [fetch]. *)
Fixpoint fetches (tr : list event) : list request :=
  match tr with
  | [] => []
  | EFetch r :: rest => r :: fetches rest
  | EConsoleError _ :: rest => fetches rest
  end.

(** An object with an [error] property holding a string. *)
Definition has_error_string (v : value) : Prop :=
  exists msg, get v "error" = Normal (VStr msg).

End Api.

(** ** The [App] component (App.jsx): state, handlers, trip summary *)

Module App.

Import Api.

(** The thirteen [useState] cells of [App]. *)
Record AppState := {
  evModels : value;
  selectedModel : value;
  batteryPercent : Z;
  fromLocation : value;
  toLocation : value;
  fromCoords : value;
  toCoords : value;
  routeResult : value;
  previewRoute : value;
  loading : bool;
  error : value;
  darkMode : bool;
  chargerFilter : string
}.

Definition initial : AppState := {|
  evModels := VArr [];
  selectedModel := VNull;
  batteryPercent := 80;
  fromLocation := VStr "";
  toLocation := VStr "";
  fromCoords := VNull;
  toCoords := VNull;
  routeResult := VNull;
  previewRoute := VNull;
  loading := false;
  error := VNull;
  darkMode := true;
  chargerFilter := "all"
|}.

(** The state setters. *)
Definition setEvModels (v : value) (st : AppState) : AppState :=
  {| evModels := v; selectedModel := selectedModel st;
     batteryPercent := batteryPercent st; fromLocation := fromLocation st;
     toLocation := toLocation st; fromCoords := fromCoords st;
     toCoords := toCoords st; routeResult := routeResult st;
     previewRoute := previewRoute st; loading := loading st; error := error st;
     darkMode := darkMode st; chargerFilter := chargerFilter st |}.

Definition setSelectedModel (v : value) (st : AppState) : AppState :=
  {| evModels := evModels st; selectedModel := v;
     batteryPercent := batteryPercent st; fromLocation := fromLocation st;
     toLocation := toLocation st; fromCoords := fromCoords st;
     toCoords := toCoords st; routeResult := routeResult st;
     previewRoute := previewRoute st; loading := loading st; error := error st;
     darkMode := darkMode st; chargerFilter := chargerFilter st |}.

Definition setBatteryPercent (b : Z) (st : AppState) : AppState :=
  {| evModels := evModels st; selectedModel := selectedModel st;
     batteryPercent := b; fromLocation := fromLocation st;
     toLocation := toLocation st; fromCoords := fromCoords st;
     toCoords := toCoords st; routeResult := routeResult st;
     previewRoute := previewRoute st; loading := loading st; error := error st;
     darkMode := darkMode st; chargerFilter := chargerFilter st |}.

Definition setFromLocation (v : value) (st : AppState) : AppState :=
  {| evModels := evModels st; selectedModel := selectedModel st;
     batteryPercent := batteryPercent st; fromLocation := v;
     toLocation := toLocation st; fromCoords := fromCoords st;
     toCoords := toCoords st; routeResult := routeResult st;
     previewRoute := previewRoute st; loading := loading st; error := error st;
     darkMode := darkMode st; chargerFilter := chargerFilter st |}.

Definition setToLocation (v : value) (st : AppState) : AppState :=
  {| evModels := evModels st; selectedModel := selectedModel st;
     batteryPercent := batteryPercent st; fromLocation := fromLocation st;
     toLocation := v; fromCoords := fromCoords st;
     toCoords := toCoords st; routeResult := routeResult st;
     previewRoute := previewRoute st; loading := loading st; error := error st;
     darkMode := darkMode st; chargerFilter := chargerFilter st |}.

Definition setFromCoords (v : value) (st : AppState) : AppState :=
  {| evModels := evModels st; selectedModel := selectedModel st;
     batteryPercent := batteryPercent st; fromLocation := fromLocation st;
     toLocation := toLocation st; fromCoords := v;
     toCoords := toCoords st; routeResult := routeResult st;
     previewRoute := previewRoute st; loading := loading st; error := error st;
     darkMode := darkMode st; chargerFilter := chargerFilter st |}.

Definition setToCoords (v : value) (st : AppState) : AppState :=
  {| evModels := evModels st; selectedModel := selectedModel st;
     batteryPercent := batteryPercent st; fromLocation := fromLocation st;
     toLocation := toLocation st; fromCoords := fromCoords st;
     toCoords := v; routeResult := routeResult st;
     previewRoute := previewRoute st; loading := loading st; error := error st;
     darkMode := darkMode st; chargerFilter := chargerFilter st |}.

Definition setRouteResult (v : value) (st : AppState) : AppState :=
  {| evModels := evModels st; selectedModel := selectedModel st;
     batteryPercent := batteryPercent st; fromLocation := fromLocation st;
     toLocation := toLocation st; fromCoords := fromCoords st;
     toCoords := toCoords st; routeResult := v;
     previewRoute := previewRoute st; loading := loading st; error := error st;
     darkMode := darkMode st; chargerFilter := chargerFilter st |}.

Definition setPreviewRoute (v : value) (st : AppState) : AppState :=
  {| evModels := evModels st; selectedModel := selectedModel st;
     batteryPercent := batteryPercent st; fromLocation := fromLocation st;
     toLocation := toLocation st; fromCoords := fromCoords st;
     toCoords := toCoords st; routeResult := routeResult st;
     previewRoute := v; loading := loading st; error := error st;
     darkMode := darkMode st; chargerFilter := chargerFilter st |}.

Definition setLoading (b : bool) (st : AppState) : AppState :=
  {| evModels := evModels st; selectedModel := selectedModel st;
     batteryPercent := batteryPercent st; fromLocation := fromLocation st;
     toLocation := toLocation st; fromCoords := fromCoords st;
     toCoords := toCoords st; routeResult := routeResult st;
     previewRoute := previewRoute st; loading := b; error := error st;
     darkMode := darkMode st; chargerFilter := chargerFilter st |}.

Definition setError (v : value) (st : AppState) : AppState :=
  {| evModels := evModels st; selectedModel := selectedModel st;
     batteryPercent := batteryPercent st; fromLocation := fromLocation st;
     toLocation := toLocation st; fromCoords := fromCoords st;
     toCoords := toCoords st; routeResult := routeResult st;
     previewRoute := previewRoute st; loading := loading st; error := v;
     darkMode := darkMode st; chargerFilter := chargerFilter st |}.

Definition setDarkMode (b : bool) (st : AppState) : AppState :=
  {| evModels := evModels st; selectedModel := selectedModel st;
     batteryPercent := batteryPercent st; fromLocation := fromLocation st;
     toLocation := toLocation st; fromCoords := fromCoords st;
     toCoords := toCoords st; routeResult := routeResult st;
     previewRoute := previewRoute st; loading := loading st; error := error st;
     darkMode := b; chargerFilter := chargerFilter st |}.

Definition setChargerFilter (s : string) (st : AppState) : AppState :=
  {| evModels := evModels st; selectedModel := selectedModel st;
     batteryPercent := batteryPercent st; fromLocation := fromLocation st;
     toLocation := toLocation st; fromCoords := fromCoords st;
     toCoords := toCoords st; routeResult := routeResult st;
     previewRoute := previewRoute st; loading := loading st; error := error st;
     darkMode := darkMode st; chargerFilter := s |}.

(** What a handler leaves behind: the state, how it completed (an async
    handler that throws leaves a rejected promise) and the external events. *)
Record handled := {
  after : AppState;
  completed : completion unit;
  events : list event
}.

Definition finish (st : AppState) : handled :=
  {| after := st; completed := Normal tt; events := [] |}.

(** The mount effect: [loadModels]. *)
Definition loadModels (net : network) (st : AppState) : handled :=
  let '(r, tr) := getEvModels net in
  match r with
  | Normal data =>
      match get data "error" with
      | Normal err =>
          if truthy err then
            {| after := setError err st; completed := Normal tt; events := tr |}
          else
            let st1 := setEvModels data st in
            match (let* len := get data "length" in js_gt len (num_of_nat 0)) with
            | Normal true =>
                match index data 0 with
                | Normal first =>
                    {| after := setSelectedModel first st1;
                       completed := Normal tt; events := tr |}
                | Throw e => {| after := st1; completed := Throw e; events := tr |}
                | Unmodelled => {| after := st1; completed := Unmodelled; events := tr |}
                end
            | Normal false => {| after := st1; completed := Normal tt; events := tr |}
            | Throw e => {| after := st1; completed := Throw e; events := tr |}
            | Unmodelled => {| after := st1; completed := Unmodelled; events := tr |}
            end
      | Throw e => {| after := st; completed := Throw e; events := tr |}
      | Unmodelled => {| after := st; completed := Unmodelled; events := tr |}
      end
  | Throw e => {| after := st; completed := Throw e; events := tr |}
  | Unmodelled => {| after := st; completed := Unmodelled; events := tr |}
  end.

(** The guard of [handleGetRoute]:
    [!fromLocation || !toLocation || !selectedModel]. *)
Definition fields_missing (st : AppState) : bool :=
  negb (truthy (fromLocation st)) || negb (truthy (toLocation st))
  || negb (truthy (selectedModel st)).

Definition handleGetRoute (net : network) (st : AppState) : handled :=
  if fields_missing st then
    finish (setError (VStr "Please fill all fields") st)
  else
    let st1 := setError VNull (setLoading true st) in
    match get (selectedModel st) "ev_model_id" with
    | Normal model_id =>
        let '(r, tr) := getPrediction net (fromLocation st) (toLocation st)
                          model_id (num_of_Z (batteryPercent st)) in
        match r with
        | Normal result =>
            let st2 := setLoading false st1 in
            match get result "error" with
            | Normal err =>
                if truthy err then
                  {| after := setError err st2; completed := Normal tt; events := tr |}
                else
                  {| after := setRouteResult result st2;
                     completed := Normal tt; events := tr |}
            | Throw e => {| after := st2; completed := Throw e; events := tr |}
            | Unmodelled => {| after := st2; completed := Unmodelled; events := tr |}
            end
        | Throw e => {| after := st1; completed := Throw e; events := tr |}
        | Unmodelled => {| after := st1; completed := Unmodelled; events := tr |}
        end
    | Throw e => {| after := st1; completed := Throw e; events := [] |}
    | Unmodelled => {| after := st1; completed := Unmodelled; events := [] |}
    end.

Definition handleClear (st : AppState) : AppState :=
  setError VNull
    (setPreviewRoute VNull
      (setRouteResult VNull
        (setToCoords VNull
          (setFromCoords VNull
            (setToLocation (VStr "")
              (setFromLocation (VStr "") st)))))).

(** The effect on [fromCoords, toCoords]: the straight preview segment.
    In the first branch both cells are truthy, hence neither [null] nor
    [undefined], and the four property reads cannot throw. *)
Definition previewEffect (st : AppState) : AppState :=
  if truthy (fromCoords st) && truthy (toCoords st) then
    setPreviewRoute
      (VObj [("path",
              VArr [VArr [optget (fromCoords st) "lat"; optget (fromCoords st) "lng"];
                    VArr [optget (toCoords st) "lat"; optget (toCoords st) "lng"]])])
      st
  else setPreviewRoute VNull st.

(** *** The controls *)

(** The battery slider is [<input type="range" min="10" max="100">]; the
    browser keeps the value of such an input between [min] and [max], and
    [onChange] passes it through [parseInt]. *)
Definition slider_min : Z := 10.
Definition slider_max : Z := 100.

Definition rangeInputValue (position : Z) : Z :=
  Z.max slider_min (Z.min slider_max position).

Definition onBatteryChange (position : Z) (st : AppState) : AppState :=
  setBatteryPercent (rangeInputValue position) st.

(** [a === b] for a value against a number. *)
Definition strict_eq_num (v : value) (n : number) : bool :=
  match v, n with
  | VNum (Fin a), Fin b => Qeq_bool a b
  | VNum PosInf, PosInf => true
  | VNum NegInf, NegInf => true
  | _, _ => false
  end.

(** [evModels.find(m => m.ev_model_id === id)]. *)
Fixpoint find_model (id : number) (models : list value) : completion value :=
  match models with
  | [] => Normal VUndefined
  | m :: rest =>
      let* mid := get m "ev_model_id" in
      if strict_eq_num mid id then Normal m else find_model id rest
  end.

(** The model [<select>]: [id] is [parseInt(e.target.value)]. *)
Definition onModelChange (id : number) (st : AppState) : handled :=
  match evModels st with
  | VArr models =>
      match find_model id models with
      | Normal model => finish (setSelectedModel model st)
      | Throw e => {| after := st; completed := Throw e; events := [] |}
      | Unmodelled => {| after := st; completed := Unmodelled; events := [] |}
      end
  | _ => {| after := st; completed := Throw TypeError; events := [] |}
  end.

(** Everything the user (or the mount of the component) can do to [App]. *)
Inductive ui_event :=
| Mount
| ToggleDarkMode
| ChooseChargerFilter (name : string)
| ChooseModel (id : number)
| MoveBatterySlider (position : Z)
| ChangeFrom (text : value)
| ChangeTo (text : value)
| SelectFrom (lat lng : number)
| SelectTo (lat lng : number)
| ClickGetRoute
| ClickClear
| CloseSummary.

Definition coords (lat lng : number) : value :=
  VObj [("lat", VNum lat); ("lng", VNum lng)].

Definition step (net : network) (ev : ui_event) (st : AppState) : handled :=
  match ev with
  | Mount => loadModels net st
  | ToggleDarkMode => finish (setDarkMode (negb (darkMode st)) st)
  | ChooseChargerFilter name => finish (setChargerFilter name st)
  | ChooseModel id => onModelChange id st
  | MoveBatterySlider position => finish (onBatteryChange position st)
  | ChangeFrom text => finish (setFromLocation text st)
  | ChangeTo text => finish (setToLocation text st)
  | SelectFrom lat lng => finish (previewEffect (setFromCoords (coords lat lng) st))
  | SelectTo lat lng => finish (previewEffect (setToCoords (coords lat lng) st))
  | ClickGetRoute => handleGetRoute net st
  | ClickClear => finish (previewEffect (handleClear st))
  | CloseSummary => finish (setRouteResult VNull st)
  end.

(** The states the component can be in: from [initial], by any events. *)
Inductive reachable (net : network) : AppState -> Prop :=
| reach_initial : reachable net initial
| reach_step ev st : reachable net st -> reachable net (after (step net ev st)).

(** *** The trip summary *)

(** [cond && <jsx>]: the element, or the falsy condition handed to React. *)
Inductive guarded (A : Type) :=
| Shown (a : A)
| Skipped (cond : value).

Arguments Shown {A} a.
Arguments Skipped {A} cond.

Definition guard {A} (cond : value) (a : A) : guarded A :=
  if truthy cond then Shown a else Skipped cond.

Record StationCard := {
  card_name : value;
  card_address : value;
  card_rating : guarded value
}.

(** The callback of [stations.slice(0, 10).map(...)]. *)
Definition stationCard (station : value) : completion StationCard :=
  let* name := get station "name" in
  let* address := get station "address" in
  let* rating := get station "rating" in
  Normal {| card_name := name; card_address := address;
            card_rating := guard rating rating |}.

Record TripSummary := {
  total_distance : value;
  estimated_range : value;
  chargers_nearby : value;
  warning_shown : bool;
  station_list : option (list StationCard)
}.

(** [routeResult.total_distance_km > routeResult.estimated_range_km]. *)
Definition chargingWarning (result : value) : completion bool :=
  let* d := get result "total_distance_km" in
  let* r := get result "estimated_range_km" in
  js_gt d r.

(** [routeResult.charging_suggestions?.count || 0]. *)
Definition chargersNearby (result : value) : completion value :=
  let* cs := get result "charging_suggestions" in
  Normal (js_or (optget cs "count") (num_of_nat 0)).

(** The "Charging Stations" block: [None] when its guard
    [routeResult.charging_suggestions?.stations?.length > 0] is false. *)
Definition stationList (result : value) : completion (option (list StationCard)) :=
  let* cs := get result "charging_suggestions" in
  let* some := js_gt (optget (optget cs "stations") "length") (num_of_nat 0) in
  if some then
    let* cs' := get result "charging_suggestions" in
    let* stations := get cs' "stations" in
    match stations with
    | VArr items =>
        let* cards := map_completion stationCard (slice0 10 items) in
        Normal (Some cards)
    | _ => Throw TypeError
    end
  else Normal None.

Definition tripSummary (result : value) : completion TripSummary :=
  let* d := get result "total_distance_km" in
  let* r := get result "estimated_range_km" in
  let* count := chargersNearby result in
  let* warn := chargingWarning result in
  let* stations := stationList result in
  Normal {| total_distance := d; estimated_range := r; chargers_nearby := count;
            warning_shown := warn; station_list := stations |}.

Record View := {
  error_banner : guarded value;
  map_result : value;
  summary : guarded TripSummary
}.

(** The part of [App]'s render that depends on the result and the error:
    the elements the component function returns.  What React then does with
    a child (printing a number, refusing an object) is outside the sources. *)
Definition render (st : AppState) : completion View :=
  let banner := guard (error st) (error st) in
  let shown := js_or (routeResult st) (previewRoute st) in
  if truthy (routeResult st) then
    let* s := tripSummary (routeResult st) in
    Normal {| error_banner := banner; map_result := shown; summary := Shown s |}
  else
    Normal {| error_banner := banner; map_result := shown;
              summary := Skipped (routeResult st) |}.

(** A [charging_suggestions] value whose station list is empty or absent
    (the value itself may be absent). *)
Definition no_stations (cs : value) : Prop :=
  optget cs "stations" = VArr [] \/ nullish (optget cs "stations") = true.

End App.

(** ** The [Map] component (Map.jsx): the effect that draws a result *)

Module MapView.

(** A marker as the effect builds it: [position: { lat, lng }] and [title].
    [google.maps.Marker] itself is outside the sources; the markers are kept
    as the data pushed to [markersRef.current]. *)
Record Marker := {
  position_lat : value;
  position_lng : value;
  title : value
}.

(** The callback of [stations.forEach]: [None] is the early [return]. *)
Definition stationMarker (station : value) : completion (option Marker) :=
  let* lat := get station "lat" in
  if negb (truthy lat) then Normal None
  else
    let* lng := get station "lng" in
    if negb (truthy lng) then Normal None
    else
      let* name := get station "name" in
      Normal (Some {| position_lat := lat; position_lng := lng; title := name |}).

(** [stations.forEach(...)], pushing onto [markers]. *)
Fixpoint placeMarkers (stations : list value) (markers : list Marker)
    : completion (list Marker) :=
  match stations with
  | [] => Normal markers
  | station :: rest =>
      let* m := stationMarker station in
      placeMarkers rest (match m with
                         | Some marker => markers ++ [marker]
                         | None => markers
                         end)
  end.

(** The request to the directions service, when the result has a path of at
    least two points: [origin] and [destination] as (lat, lng). *)
Definition directionsRequest (result : value)
    : completion (option ((value * value) * (value * value))) :=
  let* path := get result "path" in
  match path with
  | VArr points =>
      if (2 <=? length points)%nat then
        let* first := index path 0 in
        let* olat := index first 0 in
        let* first' := index path 0 in
        let* olng := index first' 1 in
        let* last := index path (length points - 1) in
        let* dlat := index last 0 in
        let* last' := index path (length points - 1) in
        let* dlng := index last' 1 in
        Normal (Some ((olat, olng), (dlat, dlng)))
      else Normal None
  | _ => Normal None
  end.

Record MapUpdate := {
  markers : list Marker;
  directions : option ((value * value) * (value * value))
}.

(** The effect on [result].  [ready] stands for
    [mapInstanceRef.current && window.google]; [old] is
    [markersRef.current] before the effect. *)
Definition updateMap (ready : bool) (result : value) (old : list Marker)
    : completion MapUpdate :=
  if negb (truthy result) || negb ready then
    Normal {| markers := old; directions := None |}
  else
    let* dir := directionsRequest result in
    let stations :=
      js_or (optget (optget result "charging_suggestions") "stations") (VArr []) in
    match stations with
    | VArr items =>
        let* ms := placeMarkers items [] in
        Normal {| markers := ms; directions := dir |}
    | _ => Throw TypeError
    end.

(** A station without a coordinate: its [lat] or its [lng] is missing (or
    [null]). *)
Definition missing_coordinate (station : value) : Prop :=
  nullish station = false /\
  (nullish (optget station "lat") = true \/ nullish (optget station "lng") = true).

End MapView.

(** ** The planning core *)

Module Planner.

Local Open Scope Q_scope.

Inductive planning_error :=
| InvalidInput
| UpstreamUnavailable
| Unreachable
| SearchLimitExceeded.

Inductive verdict :=
| DIRECT
| REQUIRES_CHARGING
| INFEASIBLE.

Record EVModel := {
  model_id : Z;
  display_name : string;
  maxRange : Q;
  batteryCapacity : Q;
  consumptionRate : Q
}.

(** Modelled from the spec: the Range Estimator of the back end, which is
    not among the sources.  "Output: evModel.maxRange * batteryPercent / 100,
    clamped to >= 0.  Fails with InvalidInput when batteryPercent is out of
    range or evModel is absent." *)
Definition estimateRange (evModel : option EVModel) (batteryPercent : Z)
    : planning_error + Q :=
  match evModel with
  | None => inl InvalidInput
  | Some m =>
      if ((0 <=? batteryPercent) && (batteryPercent <=? 100))%Z then
        let km := maxRange m * inject_Z batteryPercent / 100 in
        inr (if Qle_bool 0 km then km else 0)
      else inl InvalidInput
  end.

(** Modelled from the spec: the rule of the Feasibility Evaluator (back
    end, not among the sources), in the specification's words: "DIRECT if
    totalDistanceKm <= estimatedRangeKm; otherwise REQUIRES_CHARGING", with
    negative inputs invalid.  It is compared with the guard of the warning
    that the front end applies, [App.chargingWarning]. *)
Definition classify_spec (totalDistanceKm estimatedRangeKm : Q)
    : planning_error + verdict :=
  if Qle_bool 0 totalDistanceKm && Qle_bool 0 estimatedRangeKm then
    inr (if Qle_bool totalDistanceKm estimatedRangeKm then DIRECT
         else REQUIRES_CHARGING)
  else inl InvalidInput.

(** *** The Stop Selector *)

(** The Stop Selector (A* planner) belongs to the back end, which is not
    among the sources.  Every definition of this part, down to [feasible],
    is modelled from section 4.4 of the specification: the nodes, the range
    budget of a hop, the frontier ordered by [g + h] with its tie-breaks, the
    expansion of a popped node, the reconstruction of the stop sequence from
    parent pointers, and the defensive cap. *)

(** Modelled from the spec: the nodes of the Stop Selector's graph.  "A node
    is either the origin, the destination, or a (deduplicated)
    ChargingCandidate"; candidates are numbered as in an arena. *)
Inductive node :=
| Origin
| Destination
| Stop (i : nat).

#[global] Instance node_eq_dec : EqDecision node.
Proof. solve_decision. Defined.

(** Modelled from the spec: the input of the Stop Selector, one planning
    problem: the candidates [Stop 0 .. Stop (stops - 1)], the edge weight
    [distance a b], the straight-line (haversine) distance, the candidates'
    optional ratings, the range at the origin and at full charge, and the cap
    on the number of frontier pops. *)
Record arena := {
  stops : nat;
  distance : node -> node -> Q;
  straight_line : node -> node -> Q;
  rating : nat -> option Q;
  initial_range : Q;
  full_range : Q;
  search_cap : nat
}.

(** Modelled from the spec: the range budget of the Stop Selector.
    "origin's budget = initial estimated range; every other node's budget =
    full range after charging". *)
Definition budget (A : arena) (u : node) : Q :=
  match u with
  | Origin => initial_range A
  | _ => full_range A
  end.

(** Modelled from the spec: the heuristic of the Stop Selector.  "h is the
    straight-line (haversine) distance from node to destination". *)
Definition h (A : arena) (u : node) : Q := straight_line A u Destination.

(** Modelled from the spec: a frontier entry of the Stop Selector: the node,
    the accumulated distance [g] from the origin, and the parent pointer. *)
Record entry := {
  at_node : node;
  g : Q;
  parent : option node
}.

(** Modelled from the spec: the priority of the Stop Selector's queue,
    "ordered by g(node) + h(node)". *)
Definition f (A : arena) (e : entry) : Q := g e + h A (at_node e).

(** Modelled from the spec: the rating used by the Stop Selector's
    tie-break; an absent rating counts as 0, as does the rating of the
    origin and of the destination. *)
Definition rating_of (A : arena) (u : node) : Q :=
  match u with
  | Stop i => default 0 (rating A i)
  | _ => 0
  end.

(** [a < b] on rationals, as a boolean. *)
Definition Qlt_bool (a b : Q) : bool := negb (Qle_bool b a).

(** Modelled from the spec: the order of the Stop Selector's priority
    queue.  [better A x y]: [x] goes before [y]: smaller [f]; "on equal
    f = g+h, prefer the node with smaller h"; then "candidate rating (prefer
    higher)".  What remains equal is served in insertion order. *)
Definition better (A : arena) (x y : entry) : bool :=
  Qlt_bool (f A x) (f A y)
  || (Qeq_bool (f A x) (f A y)
      && (Qlt_bool (h A (at_node x)) (h A (at_node y))
          || (Qeq_bool (h A (at_node x)) (h A (at_node y))
              && Qlt_bool (rating_of A (at_node y)) (rating_of A (at_node x))))).

(** Modelled from the spec: the pop of the Stop Selector's priority queue:
    the best entry of the frontier, which is kept in insertion order (the
    earliest of equal entries wins). *)
Fixpoint pop_min (A : arena) (frontier : list entry) : option (entry * list entry) :=
  match frontier with
  | [] => None
  | e :: later =>
      match pop_min A later with
      | None => Some (e, [])
      | Some (m, later') =>
          if better A m e then Some (m, e :: later') else Some (e, later)
      end
  end.

(** Modelled from the spec: the Stop Selector's test for a node already
    expanded. *)
Definition visited (u : node) (closed : list entry) : bool :=
  existsb (fun e => bool_decide (at_node e = u)) closed.

(** Modelled from the spec: the Stop Selector's edge test, "distance does
    not exceed the current budget for that node". *)
Definition within_budget (A : arena) (u v : node) : bool :=
  Qle_bool (distance A u v) (budget A u).

(** Modelled from the spec: the nodes the Stop Selector considers from a
    popped node, "to destination and to every other still-unvisited
    candidate". *)
Definition targets (A : arena) (closed : list entry) : list node :=
  Destination ::
  List.filter (fun v => negb (visited v closed)) (map Stop (seq 0 (stops A))).

(** Modelled from the spec: the expansion step of the Stop Selector: one new
    entry per target within budget, with [g] grown by the edge weight and the
    popped node as parent. *)
Definition expand (A : arena) (e : entry) (closed : list entry) : list entry :=
  map (fun v => {| at_node := v;
                   g := g e + distance A (at_node e) v;
                   parent := Some (at_node e) |})
      (List.filter (within_budget A (at_node e)) (targets A closed)).

(** Modelled from the spec: the Stop Selector's path reconstruction,
    "reconstruct the path via parent pointers": from [cur] back to the
    origin, through the closed entries (newest first). *)
Fixpoint chain (closed : list entry) (cur : option node) : list node :=
  match closed with
  | [] => []
  | e :: older =>
      match cur with
      | None => []
      | Some v =>
          if bool_decide (at_node e = v) then v :: chain older (parent e)
          else chain older cur
      end
  end.

(** Modelled from the spec: the Stop Selector's output, "emit ordered stop
    sequence excluding origin/destination". *)
Fixpoint stops_of (path : list node) : list nat :=
  match path with
  | [] => []
  | Stop i :: rest => i :: stops_of rest
  | _ :: rest => stops_of rest
  end.

(** Modelled from the spec: what the Stop Selector answers: a stop sequence,
    INFEASIBLE ([NoChain]) or SearchLimitExceeded ([CapReached]). *)
Inductive selection :=
| Selected (chosen : list nat)
| NoChain
| CapReached.

(** Modelled from the spec: the search loop of the Stop Selector: pop;
    "success when destination is popped from the frontier"; skip a node
    already visited; otherwise close the node and push its edges.  "The
    frontier is exhausted" gives [NoChain]; running into the cap gives
    [CapReached]. *)
Fixpoint search (A : arena) (fuel : nat) (frontier closed : list entry) : selection :=
  match fuel with
  | O => CapReached
  | S fuel' =>
      match pop_min A frontier with
      | None => NoChain
      | Some (e, rest) =>
          match at_node e with
          | Destination => Selected (stops_of (rev (chain closed (parent e))))
          | _ =>
              if visited (at_node e) closed then search A fuel' rest closed
              else search A fuel' (rest ++ expand A e (e :: closed)) (e :: closed)
          end
      end
  end.

(** Modelled from the spec: the entry the Stop Selector starts from. *)
Definition origin_entry : entry :=
  {| at_node := Origin; g := 0; parent := None |}.

(** Modelled from the spec: the Stop Selector's entry point.  "If zero
    candidates exist and direct distance exceeds range, the planner
    immediately returns INFEASIBLE without search." *)
Definition selectStops (A : arena) : selection :=
  if Nat.eqb (stops A) 0 && negb (within_budget A Origin Destination) then NoChain
  else search A (search_cap A) [origin_entry] [].

(** Modelled from the spec: the path origin -> stops -> destination of a
    stop sequence. *)
Definition route (chosen : list nat) : list node :=
  Origin :: map Stop chosen ++ [Destination].

(** Modelled from the spec: the total distance of a path, the sum of its
    edge weights. *)
Fixpoint total (A : arena) (path : list node) : Q :=
  match path with
  | u :: rest =>
      match rest with
      | v :: _ => distance A u v + total A rest
      | [] => 0
      end
  | [] => 0
  end.

(** Modelled from the spec: a feasible path, "every edge weight is <= the
    traveler's current range budget at that point". *)
Fixpoint feasible (A : arena) (path : list node) : Prop :=
  match path with
  | u :: rest =>
      match rest with
      | v :: _ => distance A u v <= budget A u /\ feasible A rest
      | [] => True
      end
  | [] => True
  end.

(** Modelled from the spec: the geometry the heuristic relies on:
    straight-line (great-circle) distance obeys the triangle inequality. *)
Definition triangle_inequality (A : arena) : Prop :=
  forall a b c, straight_line A a c <= straight_line A a b + straight_line A b c.

(** Modelled from the spec: "straight-line distance never exceeds true road
    distance", for the edge weights of the Stop Selector. *)
Definition straight_line_below_distance (A : arena) : Prop :=
  forall a b, straight_line A a b <= distance A a b.

(** *** Invariants of the search

    What holds of the frontier and the closed entries between two pops; the
    properties of [selectStops] are proved from them. *)

(** A node an edge may lead to: the destination or one of the candidates. *)
Definition is_target (A : arena) (v : node) : Prop :=
  v = Destination \/ exists i, v = Stop i /\ (i < stops A)%nat.

(** An entry is the origin's, or extends a closed entry by one hop within
    that entry's budget. *)
Definition entry_ok (A : arena) (closed : list entry) (e : entry) : Prop :=
  (at_node e = Origin /\ parent e = None /\ g e == 0) \/
  (exists ep, ep ∈ closed /\ parent e = Some (at_node ep) /\
     g e == g ep + distance A (at_node ep) (at_node e) /\
     distance A (at_node ep) (at_node e) <= budget A (at_node ep) /\
     is_target A (at_node e)).

(** Closed entries: no node twice, never the destination, each one
    extending an older one. *)
Fixpoint closed_ok (A : arena) (closed : list entry) : Prop :=
  match closed with
  | [] => True
  | e :: older =>
      closed_ok A older /\ visited (at_node e) older = false /\
      at_node e <> Destination /\ entry_ok A older e
  end.

(** The invariant: the origin is closed at distance 0 once the search has
    started; edges between closed nodes are relaxed; every edge out of a
    closed node to an open target is on the frontier; closed entries have
    priorities below the frontier's. *)
Record search_inv (A : arena) (frontier closed : list entry) : Prop := {
  inv_closed : closed_ok A closed;
  inv_frontier : forall e, e ∈ frontier -> entry_ok A closed e;
  inv_origin :
    (closed = [] /\ frontier = [origin_entry]) \/
    (exists eo, eo ∈ closed /\ at_node eo = Origin /\ g eo == 0);
  inv_relaxed : forall e1 e2 i,
    e1 ∈ closed -> e2 ∈ closed -> at_node e2 = Stop i ->
    distance A (at_node e1) (Stop i) <= budget A (at_node e1) ->
    g e2 <= g e1 + distance A (at_node e1) (Stop i);
  inv_covered : forall e1 v,
    e1 ∈ closed -> is_target A v -> visited v closed = false ->
    distance A (at_node e1) v <= budget A (at_node e1) ->
    exists e', e' ∈ frontier /\ at_node e' = v /\
               g e' <= g e1 + distance A (at_node e1) v;
  inv_monotone : forall ec e',
    ec ∈ closed -> e' ∈ frontier -> f A ec <= f A e'
}.

(** The bookkeeping part of the invariant, which needs no geometry. *)
Definition well_formed (A : arena) (frontier closed : list entry) : Prop :=
  closed_ok A closed /\ forall e, e ∈ frontier -> entry_ok A closed e.

(** The nodes that can ever be closed. *)
Definition closable (A : arena) : list node := Origin :: map Stop (seq 0 (stops A)).

(** A bound on the pops left before the frontier is empty. *)
Definition pops_left (A : arena) (frontier closed : list entry) : nat :=
  length frontier + (stops A + 1) * (stops A + 1 - length closed).

(** Points on a line, for examples: positions in km, both distances the
    absolute difference. *)
Definition on_a_line (position : node -> Q) (n : nat) (initial full : Q) (cap : nat) : arena :=
  {| stops := n;
     distance := fun a b => Qabs (position a - position b);
     straight_line := fun a b => Qabs (position a - position b);
     rating := fun _ => None;
     initial_range := initial;
     full_range := full;
     search_cap := cap |}.

(** A corridor of 1000 km with six candidates, an initial range of 150 km
    and a full range of 300 km. *)
Definition example_corridor : arena :=
  on_a_line (fun u => match u with
                      | Origin => 0
                      | Destination => 1000
                      | Stop 0 => 140
                      | Stop 1 => 100
                      | Stop 2 => 400
                      | Stop 3 => 700
                      | Stop 4 => 390
                      | Stop _ => 950
                      end) 6 150 300 100.

(** Scenario 2 of the specification: 400 km, full range 300 km, 150 km at
    the start, one candidate 140 km along the corridor. *)
Definition scenario_single_stop : arena :=
  on_a_line (fun u => match u with
                      | Origin => 0
                      | Destination => 400
                      | Stop _ => 140
                      end) 1 150 300 20.

(** Scenario 3 of the specification: 500 km, 100 km at the start, the
    nearest candidate 150 km away. *)
Definition scenario_infeasible : arena :=
  on_a_line (fun u => match u with
                      | Origin => 0
                      | Destination => 500
                      | Stop _ => 150
                      end) 1 100 300 20.

(** *** The planning entry point *)

(** Modelled from the spec: what the candidate search hands to the core
    (back end, not among the sources): the number of deduplicated candidates,
    the road and straight-line distances between the nodes, and the
    candidates' optional ratings. *)
Record candidate_set := {
  found : nat;
  road_km : node -> node -> Q;
  haversine_km : node -> node -> Q;
  rated : nat -> option Q
}.

(** Modelled from the spec: the external collaborators of the core, as
    oracles.  "Directions: route(origin, destination) -> {waypoints,
    distanceKm, durationMin} | Unreachable"; the candidate search of section
    4.3; either may fail with UpstreamUnavailable. *)
Record collaborators := {
  directions_km : planning_error + Q;
  find_candidates : planning_error + candidate_set
}.

(** Modelled from the spec: the calls the core makes to its external
    collaborators. *)
Inductive external_call :=
| CallDirections
| CallCandidateSearch.

(** Modelled from the spec: the PlanningResult the Trip Assembler
    composes: "distance, estimated range, ordered charging suggestions", the
    verdict, and the count of candidates considered. *)
Record PlanningResult := {
  distance_km : Q;
  range_km : Q;
  trip_verdict : verdict;
  charging_stops : list nat;
  candidates_considered : nat
}.

(** Modelled from the spec: the planning entry point, with the external
    calls it makes, in order.  "Control flow: a planning request enters at
    (1)+(2) to resolve vehicle parameters, (3) fetches base geometry, (4)
    classifies feasibility, if infeasible, (5) supplies candidate stops and
    (6) selects/orders them, (7) assembles the final result"; InvalidInput is
    "rejected before any search runs"; a failure of a collaborator is
    "propagated to caller". *)
Definition planTrip (evModel : option EVModel) (batteryPercent : Z) (cap : nat)
    (world : collaborators) : (planning_error + PlanningResult) * list external_call :=
  match estimateRange evModel batteryPercent with
  | inl e => (inl e, [])
  | inr range =>
      match estimateRange evModel 100 with
      | inl e => (inl e, [])
      | inr full =>
          match directions_km world with
          | inl e => (inl e, [CallDirections])
          | inr km =>
              match classify_spec km range with
              | inl e => (inl e, [CallDirections])
              | inr DIRECT =>
                  (inr {| distance_km := km; range_km := range; trip_verdict := DIRECT;
                          charging_stops := []; candidates_considered := 0 |},
                   [CallDirections])
              | inr _ =>
                  match find_candidates world with
                  | inl e => (inl e, [CallDirections; CallCandidateSearch])
                  | inr cs =>
                      match selectStops {| stops := found cs;
                                           distance := road_km cs;
                                           straight_line := haversine_km cs;
                                           rating := rated cs;
                                           initial_range := range;
                                           full_range := full;
                                           search_cap := cap |} with
                      | Selected chosen =>
                          (inr {| distance_km := km; range_km := range;
                                  trip_verdict := REQUIRES_CHARGING;
                                  charging_stops := chosen;
                                  candidates_considered := found cs |},
                           [CallDirections; CallCandidateSearch])
                      | NoChain =>
                          (inr {| distance_km := km; range_km := range;
                                  trip_verdict := INFEASIBLE;
                                  charging_stops := [];
                                  candidates_considered := found cs |},
                           [CallDirections; CallCandidateSearch])
                      | CapReached =>
                          (inl SearchLimitExceeded, [CallDirections; CallCandidateSearch])
                      end
                  end
              end
          end
      end
  end.

(** The model of scenarios 1 and 4: a maximum range of 300 km. *)
Definition scenario_model : EVModel :=
  {| model_id := 1; display_name := "EV 300"; maxRange := 300;
     batteryCapacity := 40; consumptionRate := 2 # 15 |}.

End Planner.

(** ** The loader of the maps script and the map's start-up (Map.jsx) *)

Module MapLoader.

(** What the loader reads and changes of the page: whether
    [window.google && window.google.maps] holds, the [src] of the script
    elements of the document, and whether [window.initGoogleMaps] is set. *)
Record Page := {
  maps_available : bool;
  script_sources : list string;
  callback_installed : bool
}.

(** [isGoogleMapsLoaded()]; [window] exists in the browser. *)
Definition isGoogleMapsLoaded (p : Page) : bool := maps_available p.

(** [s] has [pat] somewhere inside: the attribute selector [src*="pat"]. *)
Fixpoint contains (pat s : string) : bool :=
  String.prefix pat s ||
  match s with
  | EmptyString => false
  | String _ rest => contains pat rest
  end.

(** [document.querySelector('script[src*="maps.googleapis.com"]')]. *)
Definition existingScript (p : Page) : option string :=
  List.find (contains "maps.googleapis.com") (script_sources p).

Definition callbackName : string := "initGoogleMaps".

(** The [src] of the injected script. *)
Definition script_url (apiKey : string) : string :=
  "https://maps.googleapis.com/maps/api/js?key=" +:+ apiKey
  +:+ "&libraries=places&callback=" +:+ callbackName.

(** The promise the loader returns: resolved at once, or waiting for the
    load event of the script already there, or waiting for the callback (or
    the error event) of the script it has just injected. *)
Inductive promise :=
| Resolved
| AwaitsLoadOf (src : string)
| AwaitsCallback (src : string).

Definition loadGoogleMapsScript (apiKey : string) (p : Page) : Page * promise :=
  if isGoogleMapsLoaded p then (p, Resolved)
  else
    match existingScript p with
    | Some src => (p, AwaitsLoadOf src)
    | None =>
        ({| maps_available := maps_available p;
            script_sources := script_sources p ++ [script_url apiKey];
            callback_installed := true |},
         AwaitsCallback (script_url apiKey))
    end.

(** How a waiting promise settles. *)
Inductive settled :=
| Fulfilled
| RejectedWith (message : string).

(** The load listener put on an existing script. *)
Definition onExistingLoad (p : Page) : settled :=
  if isGoogleMapsLoaded p then Fulfilled
  else RejectedWith "Google Maps loaded but not available".

(** [window.initGoogleMaps], called by the injected script. *)
Definition onCallback (p : Page) : Page * settled :=
  if isGoogleMapsLoaded p then
    ({| maps_available := maps_available p;
        script_sources := script_sources p;
        callback_installed := false |}, Fulfilled)
  else (p, RejectedWith "Google Maps callback fired but maps not available").

(** [script.onerror]. *)
Definition onScriptError (p : Page) : Page * settled :=
  ({| maps_available := maps_available p;
      script_sources := script_sources p;
      callback_installed := false |},
   RejectedWith "Failed to load Google Maps script").

(** The cells of [Map] that its start-up sets, and whether
    [mapInstanceRef.current] holds a map. *)
Record MapState := {
  isLoading : bool;
  mapError : value;
  mapCreated : bool
}.

Definition mapInitial : MapState :=
  {| isLoading := true; mapError := VNull; mapCreated := false |}.

(** The start-up effect up to its [await]: without an API key
    ([import.meta.env.VITE_GOOGLE_MAPS_KEY] undefined or empty) it sets the
    error and stops; otherwise it calls the loader. *)
Definition startInit (apiKey : option string) (p : Page) (st : MapState)
    : MapState * Page * option promise :=
  match apiKey with
  | Some key =>
      if String.eqb key "" then
        ({| isLoading := false; mapError := VStr "Google Maps API key not found";
            mapCreated := mapCreated st |}, p, None)
      else
        let '(p', pr) := loadGoogleMapsScript key p in (st, p', Some pr)
  | None =>
      ({| isLoading := false; mapError := VStr "Google Maps API key not found";
          mapCreated := mapCreated st |}, p, None)
  end.

(** The rest of [initMap], once the loader's promise has settled.
    [isMounted] and [containerPresent] are [isMounted] and
    [mapContainerRef.current] at that moment; [constructed] is what
    [new google.maps.Map] does: [None] when it returns, [Some m] when it
    throws an error whose [message] is [m]. *)
Definition finishInit (outcome : settled) (isMounted containerPresent : bool)
    (constructed : option value) (st : MapState) : MapState :=
  match outcome with
  | Fulfilled =>
      if negb isMounted || negb containerPresent then st
      else
        match constructed with
        | None => {| isLoading := false; mapError := VNull; mapCreated := true |}
        | Some message =>
            {| isLoading := false;
               mapError := js_or message (VStr "Failed to load map");
               mapCreated := mapCreated st |}
        end
  | RejectedWith message =>
      if isMounted then
        {| isLoading := false;
           mapError := js_or (VStr message) (VStr "Failed to load map");
           mapCreated := mapCreated st |}
      else st
  end.

(** What [Map] renders: the error view, or the map container with or
    without the loading overlay. *)
Inductive map_view :=
| ErrorView (message : value)
| MapCanvas (loadingOverlay : bool).

Definition renderMap (st : MapState) : map_view :=
  if truthy (mapError st) then ErrorView (mapError st)
  else MapCanvas (isLoading st).

End MapLoader.

(** ** The place input (PlaceAutocomplete.jsx) *)

Module Places.

Import Api App.

(** The two state cells of the component and the timer of its search
    effect: [pending] holds the text the waiting callback has captured. *)
Record PlacesState := {
  suggestions : value;
  showSuggestions : bool;
  pending : option value
}.

Definition placesInitial : PlacesState :=
  {| suggestions := VArr []; showSuggestions := false; pending := None |}.

(** [a < b], with "undefined" read as [false]. *)
Definition js_lt (a b : value) : completion bool :=
  match to_number a, to_number b with
  | Some x, Some y => Normal (default false (num_lt x y))
  | _, _ => Unmodelled
  end.

(** The request of the search; [encodeURIComponent] is the browser's. *)
Definition search_request (encodeURIComponent : value -> string) (text : value) : request :=
  {| req_url := "https://nominatim.openstreetmap.org/search?format=json&q="
                +:+ encodeURIComponent text
                +:+ "&countrycodes=in&limit=5&addressdetails=1";
     req_method := "GET"; req_headers := []; req_body := None |}.

(** The effect on [value] when [value] changes: the cleanup of the previous
    run ([clearTimeout]), then the new run, which empties the suggestions for
    a text shorter than three and sets a timer otherwise. *)
Definition valueEffect (text : value) (st : PlacesState) : completion PlacesState :=
  let* len := get text "length" in
  let* short := js_lt len (num_of_nat 3) in
  if short then
    Normal {| suggestions := VArr []; showSuggestions := showSuggestions st;
              pending := None |}
  else
    Normal {| suggestions := suggestions st; showSuggestions := showSuggestions st;
              pending := Some text |}.

(** The timer's callback, 300 ms after the last change: fetch, parse, show;
    a failure is logged and changes nothing. *)
Definition timerFires (encodeURIComponent : value -> string) (net : network)
    (st : PlacesState) : PlacesState * list event :=
  match pending st with
  | None => (st, [])
  | Some text =>
      let '(r, tr) :=
        try_catch
          (bind (fetch net (search_request encodeURIComponent text)) (fun response =>
           bind (await (json response)) (fun data =>
           ret (Some data))))
          (fun err =>
           bind (emit (EConsoleError [LStr "Error fetching suggestions:"; LErr err])) (fun _ =>
           ret None)) in
      match r with
      | Normal (Some data) =>
          ({| suggestions := data; showSuggestions := true; pending := None |}, tr)
      | _ =>
          ({| suggestions := suggestions st; showSuggestions := showSuggestions st;
              pending := None |}, tr)
      end
  end.

(** The timer's callback from the point where [fetch] has settled with
    [outcome] (lines 26 to 34): parse the body, store it and switch the
    dropdown on; a rejection or an unparsable body is logged.  Nothing in it
    looks at the text the input holds by then, nor at a timer armed since. *)
Definition replyLands (outcome : fetch_outcome) (st : PlacesState)
    : PlacesState * list event :=
  let '(r, tr) :=
    try_catch
      (bind (lift (match outcome with
                   | FetchRejected => Throw NetworkError
                   | FetchResolved response => Normal response
                   end)) (fun response =>
       bind (await (json response)) (fun data =>
       ret (Some data))))
      (fun err =>
       bind (emit (EConsoleError [LStr "Error fetching suggestions:"; LErr err])) (fun _ =>
       ret None)) in
  match r with
  | Normal (Some data) =>
      ({| suggestions := data; showSuggestions := true; pending := pending st |}, tr)
  | _ => (st, tr)
  end.

(** [handleSelect(place)]: the arguments handed to [onChange] and to
    [onSelect], and the state it leaves; [parseFloat] is the browser's. *)
Definition handleSelect (parseFloat : value -> number) (place : value) (st : PlacesState)
    : completion (value * value * PlacesState) :=
  let* name := get place "display_name" in
  let* lat := get place "lat" in
  let* lon := get place "lon" in
  Normal (name, coords (parseFloat lat) (parseFloat lon),
          {| suggestions := VArr []; showSuggestions := false;
             pending := pending st |}).

(** The list under the input: [None] when
    [showSuggestions && suggestions.length > 0] is false, otherwise the
    [display_name] of each suggestion. *)
Definition dropdown (st : PlacesState) : completion (option (list value)) :=
  if showSuggestions st then
    let* len := get (suggestions st) "length" in
    let* some := js_gt len (num_of_nat 0) in
    if some then
      match suggestions st with
      | VArr places =>
          let* names := map_completion (fun place => get place "display_name") places in
          Normal (Some names)
      | _ => Throw TypeError
      end
    else Normal None
  else Normal None.

(** Whether the dependency [value] of the effect has changed between two
    renders ([Object.is]).  Decided for strings, booleans, [null] and
    [undefined] and between values of different kinds; two numbers (the sign
    of a zero is not kept), two arrays or two objects (their identity is not
    kept) are left undecided. *)
Definition value_changed (old new : value) : completion bool :=
  match old, new with
  | VStr a, VStr b => Normal (negb (String.eqb a b))
  | VBool a, VBool b => Normal (negb (Bool.eqb a b))
  | VUndefined, VUndefined | VNull, VNull => Normal false
  | VNum _, VNum _ | VArr _, VArr _ | VObj _, VObj _ => Unmodelled
  | _, _ => Normal true
  end.

(** The effect on [value] after a render that follows the first one: it runs
    only when [value] has changed. *)
Definition valueEffectOnChange (old new : value) (st : PlacesState)
    : completion PlacesState :=
  let* changed := value_changed old new in
  if changed then valueEffect new st else Normal st.

(** The "from" input inside [App]: [value] is [fromLocation], [onChange] is
    [setFromLocation], [onSelect] is [setFromCoords].  Choosing a suggestion
    runs [handleSelect], then the effects of the two components on the new
    state. *)
Definition chooseFrom (parseFloat : value -> number) (place : value)
    (app : AppState) (st : PlacesState) : completion (AppState * PlacesState) :=
  cbind (handleSelect parseFloat place st) (fun '(name, position, st1) =>
  let app1 := previewEffect (setFromCoords position (setFromLocation name app)) in
  let* st2 := valueEffectOnChange (fromLocation app) (fromLocation app1) st1 in
  Normal (app1, st2)).

(** Typing in the "from" input: [onChange(e.target.value)], then the effect. *)
Definition typeFrom (text : string) (app : AppState) (st : PlacesState)
    : completion (AppState * PlacesState) :=
  let app1 := setFromLocation (VStr text) app in
  let* st1 := valueEffectOnChange (fromLocation app) (fromLocation app1) st in
  Normal (app1, st1).

(** A burst of typing in the input, each text different from the one
    before: one run of the effect per change, no timer firing in between.  The characters of a text stand for the code
    units of the JavaScript string, so that [String.length] is its
    [length]. *)
Fixpoint typeAll (texts : list string) (st : PlacesState) : completion PlacesState :=
  match texts with
  | [] => Normal st
  | text :: rest => let* st' := valueEffect (VStr text) st in typeAll rest st'
  end.

End Places.

(** ** A route request in flight (App.jsx, [handleGetRoute] around its [await]) *)

Module InFlight.

Import Api App.

(** [handleGetRoute] up to its [await]: the guard, the two setters, and the
    arguments handed to [getPrediction] ([None]: no request). *)
Definition startGetRoute (st : AppState)
    : AppState * completion (option (value * value * value * value)) :=
  if fields_missing st then
    (setError (VStr "Please fill all fields") st, Normal None)
  else
    let st1 := setError VNull (setLoading true st) in
    match get (selectedModel st) "ev_model_id" with
    | Normal model_id =>
        (st1, Normal (Some (fromLocation st, toLocation st, model_id,
                            num_of_Z (batteryPercent st))))
    | Throw e => (st1, Throw e)
    | Unmodelled => (st1, Unmodelled)
    end.

(** [handleGetRoute] after its [await], with [result] what [getPrediction]
    resolved to: three setters with values of their own, applied to the
    state the component has by then. *)
Definition routeReplyLands (result : value) (st : AppState) : AppState * completion unit :=
  let st2 := setLoading false st in
  match get result "error" with
  | Normal err =>
      if truthy err then (setError err st2, Normal tt)
      else (setRouteResult result st2, Normal tt)
  | Throw e => (st2, Throw e)
  | Unmodelled => (st2, Unmodelled)
  end.

(** A click on the "get route" button, [disabled={loading}]: while
    [loading] holds the click is not delivered. *)
Definition clickGetRoute (st : AppState)
    : AppState * completion (option (value * value * value * value)) :=
  if loading st then (st, Normal None) else startGetRoute st.

(** [handleGetRoute] with the reply landing at once, put together from the
    two halves. *)
Definition getRouteAtOnce (net : network) (st : AppState) : handled :=
  match startGetRoute st with
  | (st1, Normal None) => finish st1
  | (st1, Normal (Some (from_location, to_location, ev_model_id, battery_percent))) =>
      let '(r, tr) := getPrediction net from_location to_location
                        ev_model_id battery_percent in
      match r with
      | Normal result =>
          {| after := fst (routeReplyLands result st1);
             completed := snd (routeReplyLands result st1); events := tr |}
      | Throw e => {| after := st1; completed := Throw e; events := tr |}
      | Unmodelled => {| after := st1; completed := Unmodelled; events := tr |}
      end
  | (st1, Throw e) => {| after := st1; completed := Throw e; events := [] |}
  | (st1, Unmodelled) => {| after := st1; completed := Unmodelled; events := [] |}
  end.

End InFlight.

(** ** Observations on traces, replies and stations *)

Module Observe.

Import Api App MapView.

(** How many times a trace called [console.error]. *)
Fixpoint console_errors (tr : list event) : nat :=
  match tr with
  | [] => 0
  | EConsoleError _ :: rest => S (console_errors rest)
  | EFetch _ :: rest => console_errors rest
  end.

(** The network outcomes that make [getPrediction] answer with an error
    object: a rejected fetch, a status that is not ok, a body that cannot be
    read or parsed. *)
Definition prediction_failure (o : fetch_outcome) : bool :=
  match o with
  | FetchRejected => true
  | FetchResolved res =>
      if ok res then match json res with inr _ => false | inl _ => true end
      else true
  end.

(** The same for [getEvModels], for which a body that parses to [null]
    fails too. *)
Definition models_failure (o : fetch_outcome) : bool :=
  match o with
  | FetchRejected => true
  | FetchResolved res =>
      if ok res then match json res with inr data => nullish data | inl _ => true end
      else true
  end.

(** A station with a truthy [lat] and a truthy [lng], and the marker made
    for it. *)
Definition has_coordinates (station : value) : bool :=
  truthy (optget station "lat") && truthy (optget station "lng").

Definition markerOf (station : value) : Marker :=
  {| position_lat := optget station "lat";
     position_lng := optget station "lng";
     title := optget station "name" |}.

(** What the preview effect makes of two coordinate cells. *)
Definition preview_of (fromCoords toCoords : value) : value :=
  if truthy fromCoords && truthy toCoords then
    VObj [("path",
           VArr [VArr [optget fromCoords "lat"; optget fromCoords "lng"];
                 VArr [optget toCoords "lat"; optget toCoords "lng"]])]
  else VNull.

(** The request [handleGetRoute] sends from a state. *)
Definition request_of (st : AppState) : request :=
  prediction_request (fromLocation st) (toLocation st)
    (optget (selectedModel st) "ev_model_id") (num_of_Z (batteryPercent st)).

(** The three cells the preview effect reads and writes. *)
Definition preview_cells (st : AppState) : value * value * value :=
  (fromCoords st, toCoords st, previewRoute st).

(** [m.ev_model_id === id], the test of the model [<select>]. *)
Definition matches (id : number) (model : value) : bool :=
  strict_eq_num (optget model "ev_model_id") id.


(** A sequence of user actions from a state: the state it ends in and the
    events of all handlers, in order. *)
Fixpoint run (net : network) (evs : list ui_event) (st : AppState)
    : AppState * list event :=
  match evs with
  | [] => (st, [])
  | ev :: rest =>
      let '(st', tr) := run net rest (after (step net ev st)) in
      (st', events (step net ev st) ++ tr)
  end.

(** The two buttons that only change how the page looks. *)
Definition display_only (ev : ui_event) : bool :=
  match ev with
  | ToggleDarkMode | ChooseChargerFilter _ => true
  | _ => false
  end.

(** Every cell of the state except [darkMode] and [chargerFilter]. *)
Definition data_cells (st : AppState) :=
  (evModels st, selectedModel st, batteryPercent st, fromLocation st, toLocation st,
   fromCoords st, toCoords st, routeResult st, previewRoute st, loading st, error st).

End Observe.

(** * Properties *)

Import Api App MapView Planner.

(** ** Reading properties *)

Lemma get_optget (v : value) (p : string) :
  nullish v = false -> get v p = Normal (optget v p).
Proof. destruct v; try discriminate; reflexivity. Qed.

Lemma truthy_not_nullish (v : value) : truthy v = true -> nullish v = false.
Proof. destruct v; try discriminate; reflexivity. Qed.

(** ** Errors as values in the API helper *)

Lemma error_object_has_error msg : has_error_string (error_object msg).
Proof. exists msg. reflexivity. Qed.

Lemma getEvModels_reply (net : network) :
  exists v tr, getEvModels net = (Normal v, tr) /\
    match net models_request with
    | FetchRejected => has_error_string v
    | FetchResolved res =>
        if ok res then
          match json res with
          | inr data =>
              match data with
              | VNull | VUndefined => has_error_string v
              | _ => v = js_or (optget data "models") (VArr [])
              end
          | inl _ => has_error_string v
          end
        else has_error_string v
    end.
Proof.
  unfold getEvModels, fetch.
  destruct (net models_request) as [|[o s t j]]; simpl.
  - eexists _, _. split; [reflexivity | apply error_object_has_error].
  - destruct o; simpl.
    + destruct j as [e|data]; simpl.
      * eexists _, _. split; [reflexivity | apply error_object_has_error].
      * destruct data; simpl;
          eexists _, _; (split; [reflexivity | ]);
          try apply error_object_has_error; reflexivity.
    + destruct t; simpl; eexists _, _; (split; [reflexivity | apply error_object_has_error]).
Qed.

Lemma getPrediction_reply (net : network) (from_location to_location ev_model_id battery_percent : value) :
  exists v tr,
    getPrediction net from_location to_location ev_model_id battery_percent = (Normal v, tr) /\
    match net (prediction_request from_location to_location ev_model_id battery_percent) with
    | FetchRejected => has_error_string v
    | FetchResolved res =>
        if ok res then
          match json res with
          | inr data => v = data
          | inl _ => has_error_string v
          end
        else has_error_string v
    end.
Proof.
  unfold getPrediction, fetch.
  destruct (net _) as [|[o s t j]]; simpl.
  - eexists _, _. split; [reflexivity | apply error_object_has_error].
  - destruct o; simpl.
    + destruct j as [e|data]; simpl;
        eexists _, _; (split; [reflexivity | ]);
          try apply error_object_has_error; reflexivity.
    + destruct t; simpl; eexists _, _; (split; [reflexivity | apply error_object_has_error]).
Qed.

(** C7 (errors as values): [getEvModels] and [getPrediction] never throw.
    Whatever the network does, each returns a value: an object holding an
    error string when [fetch] rejects, when the status is not ok, or when the
    body cannot be read or parsed (for [getEvModels] also when the body parses
    to [null], whose [models] cannot be read); otherwise the parsed payload,
    which for [getEvModels] is [data.models] or [[]] when that is absent. *)
Theorem api_errors_are_values
    (net : network) (from_location to_location ev_model_id battery_percent : value) :
  (exists v tr, getEvModels net = (Normal v, tr) /\
     match net models_request with
     | FetchRejected => has_error_string v
     | FetchResolved res =>
         if ok res then
           match json res with
           | inr data =>
               match data with
               | VNull | VUndefined => has_error_string v
               | _ => v = js_or (optget data "models") (VArr [])
               end
           | inl _ => has_error_string v
           end
         else has_error_string v
     end) /\
  (exists v tr,
     getPrediction net from_location to_location ev_model_id battery_percent
       = (Normal v, tr) /\
     match net (prediction_request from_location to_location ev_model_id battery_percent) with
     | FetchRejected => has_error_string v
     | FetchResolved res =>
         if ok res then
           match json res with
           | inr data => v = data
           | inl _ => has_error_string v
           end
         else has_error_string v
     end) /\
  (forall fields, assoc "models" fields = None ->
     js_or (optget (VObj fields) "models") (VArr []) = VArr []).
Proof.
  split; [apply getEvModels_reply | split; [apply getPrediction_reply | ]].
  intros fields Hnone. simpl. rewrite Hnone. reflexivity.
Qed.

(** ** The clear action *)

(** C10 (clear frame effect): [handleClear] puts [fromLocation],
    [toLocation], [fromCoords], [toCoords], [routeResult], [previewRoute] and
    [error] back to their initial values and leaves [evModels],
    [selectedModel], [batteryPercent], [darkMode] and [chargerFilter] (and
    [loading]) as they were; the preview effect that follows changes nothing
    more. *)
Theorem handleClear_frame (st : AppState) :
  let st' := handleClear st in
  (fromLocation st' = fromLocation initial /\
   toLocation st' = toLocation initial /\
   fromCoords st' = fromCoords initial /\
   toCoords st' = toCoords initial /\
   routeResult st' = routeResult initial /\
   previewRoute st' = previewRoute initial /\
   error st' = error initial) /\
  (evModels st' = evModels st /\
   selectedModel st' = selectedModel st /\
   batteryPercent st' = batteryPercent st /\
   darkMode st' = darkMode st /\
   chargerFilter st' = chargerFilter st /\
   loading st' = loading st) /\
  previewEffect st' = st'.
Proof.
  destruct st. cbv zeta. unfold handleClear, previewEffect. simpl.
  repeat split; reflexivity.
Qed.

(** ** Feasibility and the charging warning *)


Lemma Qle_bool_true (a b : Q) : (a <= b)%Q -> Qle_bool a b = true.
Proof. apply Qle_bool_iff. Qed.




(** ** The station list of the trip summary *)

Lemma js_gt_length (n : nat) :
  js_gt (num_of_nat n) (num_of_nat 0) = Normal (negb (Nat.eqb n 0)).
Proof.
  unfold js_gt, num_of_nat. simpl. f_equal.
  destruct n as [|n]; [reflexivity|].
  unfold Qle_bool. simpl. reflexivity.
Qed.

Lemma stationCard_normal (s : value) :
  nullish s = false -> exists c, stationCard s = Normal c.
Proof.
  intros H. destruct s; try discriminate; simpl; eexists; reflexivity.
Qed.


Lemma stationList_array (result cs : value) (items : list value) :
  get result "charging_suggestions" = Normal cs ->
  get cs "stations" = Normal (VArr items) ->
  stationList result =
    if Nat.eqb (length items) 0 then Normal None
    else let* cards := map_completion stationCard (slice0 10 items) in
         Normal (Some cards).
Proof.
  intros Hcs Hst. unfold stationList. rewrite Hcs. simpl.
  assert (Hopt : optget cs "stations" = VArr items).
  { destruct cs; simpl in *; try discriminate; congruence. }
  rewrite Hopt. simpl optget. rewrite js_gt_length. simpl.
  destruct (Nat.eqb (length items) 0); simpl; [reflexivity|].
  rewrite Hst. reflexivity.
Qed.





(** ** Station markers on the map *)

Lemma nullish_not_truthy (v : value) : nullish v = true -> truthy v = false.
Proof. destruct v; try discriminate; reflexivity. Qed.

Lemma stationMarker_missing (s : value) :
  missing_coordinate s -> stationMarker s = Normal None.
Proof.
  intros [Hs H]. unfold stationMarker.
  rewrite !(get_optget s _ Hs). simpl.
  destruct H as [H|H].
  - rewrite (nullish_not_truthy _ H). reflexivity.
  - rewrite (nullish_not_truthy _ H).
    destruct (truthy (optget s "lat")); reflexivity.
Qed.

Lemma stationMarker_normal (s : value) :
  nullish s = false -> exists m, stationMarker s = Normal m.
Proof.
  intros H. unfold stationMarker.
  destruct (get s "lat") as [lat| |] eqn:Hlat;
    [ | destruct s; discriminate | destruct s; discriminate ].
  simpl. destruct (truthy lat); simpl; [|eexists; reflexivity].
  destruct (get s "lng") as [lng| |] eqn:Hlng;
    [ | destruct s; discriminate | destruct s; discriminate ].
  simpl. destruct (truthy lng); simpl; [|eexists; reflexivity].
  destruct (get s "name") as [name| |] eqn:Hname;
    [ | destruct s; discriminate | destruct s; discriminate ].
  simpl. eexists; reflexivity.
Qed.

Lemma placeMarkers_skip (s : value) (before after : list value) (acc : list Marker) :
  stationMarker s = Normal None ->
  placeMarkers (before ++ s :: after) acc = placeMarkers (before ++ after) acc.
Proof.
  intros Hs. revert acc.
  induction before as [|x before IH]; intros acc; simpl.
  - rewrite Hs. reflexivity.
  - destruct (stationMarker x) as [m| |]; simpl; [apply IH | reflexivity | reflexivity].
Qed.

Lemma placeMarkers_normal (l : list value) (acc : list Marker) :
  Forall (fun x => nullish x = false) l ->
  exists ms, placeMarkers l acc = Normal ms /\
    forall m, m ∈ ms <->
      m ∈ acc \/ exists x, x ∈ l /\ stationMarker x = Normal (Some m).
Proof.
  intros Hall. revert acc.
  induction Hall as [|x l Hx Hall IH]; intros acc; simpl.
  - exists acc. split; [reflexivity|]. intros m. split; [auto|].
    intros [H|[x [Hx _]]]; [exact H | inversion Hx].
  - destruct (stationMarker_normal x Hx) as [mx Hmx]. rewrite Hmx. simpl.
    destruct (IH (match mx with Some marker => acc ++ [marker] | None => acc end))
      as [ms [Hms Hspec]].
    exists ms. split; [exact Hms|]. intros m. rewrite Hspec. split.
    + intros [H|[y [Hy Hm]]].
      * destruct mx as [marker|]; [|left; exact H].
        apply elem_of_app in H. destruct H as [H|H]; [left; exact H|].
        apply list_elem_of_singleton in H. subst m.
        right. exists x. split; [left | exact Hmx].
      * right. exists y. split; [right; exact Hy | exact Hm].
    + intros [H|[y [Hy Hm]]].
      * left. destruct mx; [apply elem_of_app; left; exact H | exact H].
      * apply elem_of_cons in Hy. destruct Hy as [->|Hy].
        -- left. rewrite Hmx in Hm. injection Hm as ->.
           apply elem_of_app. right. apply list_elem_of_singleton. reflexivity.
        -- right. exists y. split; assumption.
Qed.

(** C6 (invalid candidates discarded): a station object without [lat] or
    without [lng] gets no marker, and the stations before and after it are
    processed as if it were not in the list: the loop completes normally and
    pushes exactly the markers of the other stations, and so does the whole
    map effect. *)
Theorem stations_without_coordinates_discarded
    (s : value) (before after : list value) :
  missing_coordinate s ->
  Forall (fun x => nullish x = false) (before ++ after) ->
  stationMarker s = Normal None /\
  exists ms,
    placeMarkers (before ++ s :: after) [] = Normal ms /\
    placeMarkers (before ++ after) [] = Normal ms /\
    (forall m, m ∈ ms <->
       exists x, x ∈ before ++ after /\ stationMarker x = Normal (Some m)) /\
    (forall result old dir,
       truthy result = true ->
       directionsRequest result = Normal dir ->
       optget (optget result "charging_suggestions") "stations"
         = VArr (before ++ s :: after) ->
       updateMap true result old = Normal {| markers := ms; directions := dir |}).
Proof.
  intros Hmiss Hall.
  pose proof (stationMarker_missing s Hmiss) as Hs.
  split; [exact Hs|].
  destruct (placeMarkers_normal (before ++ after) [] Hall) as [ms [Hms Hspec]].
  exists ms.
  assert (Hfull : placeMarkers (before ++ s :: after) [] = Normal ms).
  { rewrite placeMarkers_skip; assumption. }
  split; [exact Hfull | split; [exact Hms | split]].
  - intros m. rewrite Hspec. split.
    + intros [H|H]; [inversion H | exact H].
    + intros H. right. exact H.
  - intros result old dir Htr Hdir Hst. unfold updateMap.
    rewrite Htr, Hdir, Hst. simpl. rewrite Hfull. reflexivity.
Qed.

Lemma stations_without_coordinates_discarded_witness :
  exists ms,
    placeMarkers [VObj [("lat", VNum (Fin 17)); ("lng", VNum (Fin 78)); ("name", VStr "A")];
                  VObj [("lat", VNum (Fin 13)); ("name", VStr "B")];
                  VObj [("lat", VNum (Fin 12)); ("lng", VNum (Fin 77)); ("name", VStr "C")]] []
      = Normal ms /\
    placeMarkers [VObj [("lat", VNum (Fin 17)); ("lng", VNum (Fin 78)); ("name", VStr "A")];
                  VObj [("lat", VNum (Fin 12)); ("lng", VNum (Fin 77)); ("name", VStr "C")]] []
      = Normal ms.
Proof.
  destruct (stations_without_coordinates_discarded
              (VObj [("lat", VNum (Fin 13)); ("name", VStr "B")])
              [VObj [("lat", VNum (Fin 17)); ("lng", VNum (Fin 78)); ("name", VStr "A")]]
              [VObj [("lat", VNum (Fin 12)); ("lng", VNum (Fin 77)); ("name", VStr "C")]]
              (conj eq_refl (or_intror eq_refl))
              ltac:(repeat constructor))
    as [_ [ms [H1 [H2 _]]]].
  exists ms. split; [exact H1 | exact H2].
Defined.

(** ** Requests and the battery percent *)

Lemma getPrediction_fetches (net : network) (a b c d : value) :
  fetches (snd (getPrediction net a b c d)) = [prediction_request a b c d].
Proof.
  unfold getPrediction, fetch.
  destruct (net _) as [|[o s t j]]; simpl; [reflexivity|].
  destruct o; simpl.
  - destruct j; reflexivity.
  - destruct t; reflexivity.
Qed.

Lemma handleGetRoute_missing (net : network) (st : AppState) :
  fields_missing st = true ->
  handleGetRoute net st = finish (setError (VStr "Please fill all fields") st).
Proof. intros H. unfold handleGetRoute. rewrite H. reflexivity. Qed.

Lemma handleGetRoute_sends (net : network) (st : AppState) :
  fields_missing st = false ->
  exists v tr,
    getPrediction net (fromLocation st) (toLocation st)
      (optget (selectedModel st) "ev_model_id") (num_of_Z (batteryPercent st))
      = (Normal v, tr) /\
    events (handleGetRoute net st) = tr /\
    let st2 := setLoading false (setError VNull (setLoading true st)) in
    match get v "error" with
    | Normal err =>
        completed (handleGetRoute net st) = Normal tt /\
        after (handleGetRoute net st) =
          if truthy err then setError err st2 else setRouteResult v st2
    | Throw e =>
        completed (handleGetRoute net st) = Throw e /\
        after (handleGetRoute net st) = st2
    | Unmodelled => False
    end.
Proof.
  intros Hm. unfold handleGetRoute. rewrite Hm.
  assert (Hsel : truthy (selectedModel st) = true).
  { unfold fields_missing in Hm. destruct (truthy (selectedModel st)); [reflexivity|].
    rewrite !orb_true_r in Hm. discriminate. }
  rewrite (get_optget _ "ev_model_id" (truthy_not_nullish _ Hsel)).
  destruct (getPrediction_reply net (fromLocation st) (toLocation st)
              (optget (selectedModel st) "ev_model_id") (num_of_Z (batteryPercent st)))
    as [v [tr [Hp _]]].
  exists v, tr. rewrite Hp. split; [reflexivity|]. cbv zeta.
  destruct (get v "error") as [err|e|] eqn:He.
  - destruct (truthy err); repeat split; reflexivity.
  - repeat split; reflexivity.
  - destruct v; discriminate.
Qed.

Lemma battery_handleGetRoute (net : network) (st : AppState) :
  batteryPercent (after (handleGetRoute net st)) = batteryPercent st.
Proof.
  destruct (fields_missing st) eqn:Hm.
  - rewrite handleGetRoute_missing by assumption. reflexivity.
  - destruct (handleGetRoute_sends net st Hm) as [v [tr [_ [_ H]]]]. cbv zeta in H.
    destruct (get v "error") as [err|e|]; [| |contradiction].
    + destruct H as [_ ->]. destruct (truthy err); reflexivity.
    + destruct H as [_ ->]. reflexivity.
Qed.

Lemma battery_loadModels (net : network) (st : AppState) :
  batteryPercent (after (loadModels net st)) = batteryPercent st.
Proof.
  unfold loadModels.
  destruct (getEvModels net) as [[data|e|] tr]; try reflexivity.
  destruct (get data "error") as [err|e|]; try reflexivity.
  destruct (truthy err); [reflexivity|].
  destruct (cbind _ _) as [[|]|e|]; try reflexivity.
  destruct (index data 0); reflexivity.
Qed.

Lemma battery_onModelChange (id : number) (st : AppState) :
  batteryPercent (after (onModelChange id st)) = batteryPercent st.
Proof.
  unfold onModelChange.
  destruct (evModels st); try reflexivity.
  destruct (find_model id items); reflexivity.
Qed.

Lemma battery_previewEffect (st : AppState) :
  batteryPercent (previewEffect st) = batteryPercent st.
Proof. unfold previewEffect. destruct (_ && _); reflexivity. Qed.

Lemma rangeInputValue_bounds (position : Z) :
  (10 <= rangeInputValue position <= 100)%Z.
Proof. unfold rangeInputValue, slider_min, slider_max. lia. Qed.

Lemma reachable_battery (net : network) (st : AppState) :
  reachable net st -> (10 <= batteryPercent st <= 100)%Z.
Proof.
  induction 1 as [|ev st Hst IH].
  - simpl. lia.
  - destruct ev; simpl;
      rewrite ?battery_loadModels, ?battery_onModelChange,
              ?battery_handleGetRoute, ?battery_previewEffect; simpl;
      try exact IH.
    apply rangeInputValue_bounds.
Qed.

Lemma planTrip_invalid_battery (evModel : option EVModel) (p : Z) (cap : nat)
    (world : collaborators) :
  (p < 0 \/ 100 < p)%Z ->
  planTrip evModel p cap world = (inl InvalidInput, []).
Proof.
  intros Hp. unfold planTrip, estimateRange.
  destruct evModel as [m|]; [|reflexivity].
  replace ((0 <=? p) && (p <=? 100))%Z with false; [reflexivity|].
  symmetry. apply andb_false_iff.
  destruct Hp as [Hp|Hp]; [left; apply Z.leb_gt; lia | right; apply Z.leb_gt; lia].
Qed.

(** A request that passes the check does reach the collaborators: the
    directions call is made first. *)
Lemma planTrip_valid_calls_directions (m : EVModel) (p : Z) (cap : nat)
    (world : collaborators) :
  (0 <= p <= 100)%Z ->
  exists later, snd (planTrip (Some m) p cap world) = CallDirections :: later.
Proof.
  intros Hp.
  assert (H : forall q, (0 <= q <= 100)%Z -> exists r, estimateRange (Some m) q = inr r).
  { intros q Hq. unfold estimateRange.
    replace ((0 <=? q) && (q <=? 100))%Z with true
      by (symmetry; apply andb_true_iff; split; apply Z.leb_le; lia).
    eexists. reflexivity. }
  unfold planTrip.
  destruct (H p Hp) as [range ->]. destruct (H 100%Z ltac:(lia)) as [full ->].
  destruct (directions_km world) as [e|km]; [eexists; reflexivity|].
  destruct (classify_spec km _) as [e|[| |]]; try (eexists; reflexivity).
  all: destruct (find_candidates world) as [e|cs]; [eexists; reflexivity|].
  all: match goal with |- context [selectStops ?A] => destruct (selectStops A) end;
    eexists; reflexivity.
Qed.

(** C5 (invalid battery percent): a planning request whose battery percent
    lies outside [0,100] is rejected as InvalidInput by the planning entry
    point before any external call is made, whatever the collaborators would
    answer; and the boundary holds before the prediction endpoint is invoked:
    the battery percent of every state the interface can reach lies in
    [10,100] (slider bounds 10 and 100, initial value 80), [handleGetRoute]
    sends nothing when the origin, the destination or the model is missing,
    and otherwise sends one request that carries the battery percent of the
    state unchanged. *)
Theorem invalid_battery_percent_never_planned (net : network) (st : AppState) :
  reachable net st ->
  (forall evModel p cap world,
     (p < 0 \/ 100 < p)%Z ->
     planTrip evModel p cap world = (inl InvalidInput, [])) /\
  (0 <= batteryPercent st <= 100)%Z /\
  (10 <= batteryPercent st <= 100)%Z /\
  (fields_missing st = true ->
     handleGetRoute net st = finish (setError (VStr "Please fill all fields") st) /\
     events (handleGetRoute net st) = []) /\
  (fields_missing st = false ->
     fetches (events (handleGetRoute net st)) =
       [prediction_request (fromLocation st) (toLocation st)
          (optget (selectedModel st) "ev_model_id")
          (num_of_Z (batteryPercent st))]).
Proof.
  intros Hreach. pose proof (reachable_battery net st Hreach) as Hb.
  split; [intros; apply planTrip_invalid_battery; assumption|].
  split; [lia|]. split; [exact Hb|]. split.
  - intros Hm. rewrite (handleGetRoute_missing net st Hm). split; reflexivity.
  - intros Hm. destruct (handleGetRoute_sends net st Hm) as [v [tr [Hp [-> _]]]].
    pose proof (getPrediction_fetches net (fromLocation st) (toLocation st)
                  (optget (selectedModel st) "ev_model_id")
                  (num_of_Z (batteryPercent st))) as Hf.
    rewrite Hp in Hf. exact Hf.
Qed.

Lemma invalid_battery_percent_never_planned_witness :
  (10 <= batteryPercent
           (after (step (fun _ => FetchRejected) (MoveBatterySlider 120) initial))
      <= 100)%Z.
Proof.
  exact (proj1 (proj2 (proj2 (invalid_battery_percent_never_planned (fun _ => FetchRejected)
                  (after (step (fun _ => FetchRejected) (MoveBatterySlider 120) initial))
                  (reach_step _ (MoveBatterySlider 120) initial (reach_initial _)))))).
Defined.

(** ** Results without stations *)

Lemma stationList_none (result : value) :
  nullish result = false ->
  no_stations (optget result "charging_suggestions") ->
  stationList result = Normal None.
Proof.
  intros Hres Hno. unfold stationList.
  rewrite (get_optget _ _ Hres). simpl.
  destruct Hno as [-> | Hn].
  - reflexivity.
  - destruct (optget (optget result "charging_suggestions") "stations");
      try discriminate; reflexivity.
Qed.

Lemma chargingWarning_defined (result : value) (d r : number) :
  nullish result = false ->
  optget result "total_distance_km" = VNum d ->
  optget result "estimated_range_km" = VNum r ->
  chargingWarning result = Normal (default false (num_lt r d)).
Proof.
  intros Hres Hd Hr. unfold chargingWarning.
  rewrite !(get_optget _ _ Hres), Hd, Hr. reflexivity.
Qed.

(** C8, as the code has it (empty candidate sets are not errors): when a
    prediction arrives whose [charging_suggestions] is absent, or whose
    station list is empty or absent, [handleGetRoute] completes normally and
    leaves no error, and the view renders without exception: no error banner,
    no station list, and as count of nearby chargers the [count] field, or 0
    when [charging_suggestions] or its [count] is absent or zero. *)
Theorem empty_station_list_is_no_error
    (net : network) (st : AppState) (res : response) (result : value) (d r : number) :
  fields_missing st = false ->
  net (prediction_request (fromLocation st) (toLocation st)
         (optget (selectedModel st) "ev_model_id") (num_of_Z (batteryPercent st)))
    = FetchResolved res ->
  ok res = true ->
  json res = inr result ->
  truthy result = true ->
  truthy (optget result "error") = false ->
  optget result "total_distance_km" = VNum d ->
  optget result "estimated_range_km" = VNum r ->
  no_stations (optget result "charging_suggestions") ->
  let h := handleGetRoute net st in
  let count := optget (optget result "charging_suggestions") "count" in
  completed h = Normal tt /\
  error (after h) = VNull /\
  routeResult (after h) = result /\
  render (after h) =
    Normal {| error_banner := Skipped VNull;
              map_result := result;
              summary := Shown {| total_distance := VNum d;
                                  estimated_range := VNum r;
                                  chargers_nearby := js_or count (num_of_nat 0);
                                  warning_shown := default false (num_lt r d);
                                  station_list := None |} |} /\
  (truthy count = false -> js_or count (num_of_nat 0) = num_of_nat 0) /\
  (nullish (optget result "charging_suggestions") = true ->
     js_or count (num_of_nat 0) = num_of_nat 0).
Proof.
  intros Hm Hnet Hok Hjson Htr Herr Hd Hr Hno. cbv zeta.
  pose proof (truthy_not_nullish _ Htr) as Hres.
  destruct (handleGetRoute_sends net st Hm) as [v [tr [Hp [_ H]]]].
  destruct (getPrediction_reply net (fromLocation st) (toLocation st)
              (optget (selectedModel st) "ev_model_id") (num_of_Z (batteryPercent st)))
    as [v' [tr' [Hp' Hv']]].
  rewrite Hp in Hp'. injection Hp' as <- <-.
  rewrite Hnet, Hok, Hjson in Hv'. subst v. cbv zeta in H.
  rewrite (get_optget _ _ Hres), Herr in H. destruct H as [Hc Ha].
  rewrite Hc, Ha. split; [reflexivity|]. split; [reflexivity|]. split; [reflexivity|].
  split; [|split].
  - unfold render. simpl. rewrite Htr. unfold tripSummary, chargersNearby.
    rewrite !(get_optget _ _ Hres), Hd, Hr. simpl.
    rewrite (chargingWarning_defined result d r Hres Hd Hr). simpl.
    rewrite (stationList_none result Hres Hno). simpl.
    unfold js_or at 1. rewrite Htr. reflexivity.
  - intros Hc0. unfold js_or. rewrite Hc0. reflexivity.
  - intros Hn. destruct (optget result "charging_suggestions"); try discriminate; reflexivity.
Qed.

Lemma empty_station_list_is_no_error_witness :
  let st := setSelectedModel (VObj [("ev_model_id", num_of_nat 1)])
              (setToLocation (VStr "Bengaluru")
                 (setFromLocation (VStr "Hyderabad") initial)) in
  let reply := VObj [("total_distance_km", VNum (Fin 150));
                     ("estimated_range_km", VNum (Fin 240))] in
  let net := fun _ : request =>
               FetchResolved {| ok := true; status := 200;
                                text := inr ""; json := inr reply |} in
  completed (handleGetRoute net st) = Normal tt /\
  error (after (handleGetRoute net st)) = VNull.
Proof.
  cbv zeta.
  pose proof (empty_station_list_is_no_error
    (fun _ : request =>
       FetchResolved {| ok := true; status := 200; text := inr "";
                        json := inr (VObj [("total_distance_km", VNum (Fin 150));
                                           ("estimated_range_km", VNum (Fin 240))]) |})
    (setSelectedModel (VObj [("ev_model_id", num_of_nat 1)])
       (setToLocation (VStr "Bengaluru")
          (setFromLocation (VStr "Hyderabad") initial)))
    {| ok := true; status := 200; text := inr "";
       json := inr (VObj [("total_distance_km", VNum (Fin 150));
                          ("estimated_range_km", VNum (Fin 240))]) |}
    (VObj [("total_distance_km", VNum (Fin 150));
           ("estimated_range_km", VNum (Fin 240))])
    (Fin 150) (Fin 240)
    eq_refl eq_refl eq_refl eq_refl eq_refl eq_refl eq_refl eq_refl
    (or_intror eq_refl)) as H.
  cbv zeta in H. exact (conj (proj1 H) (proj1 (proj2 H))).
Defined.

(** C8 as stated fails: a result with an empty station list and
    [count = 5] is shown with a count of 5, not 0 (the count is read from the
    [count] field, not from the list). *)
Lemma empty_list_count_is_the_count_field :
  let result := VObj [("total_distance_km", VNum (Fin 150));
                      ("estimated_range_km", VNum (Fin 240));
                      ("charging_suggestions",
                       VObj [("count", num_of_nat 5); ("stations", VArr [])])] in
  tripSummary result =
    Normal {| total_distance := VNum (Fin 150);
              estimated_range := VNum (Fin 240);
              chargers_nearby := num_of_nat 5;
              warning_shown := false;
              station_list := None |}.
Proof. reflexivity. Qed.

(** ** Verdict and station list are independent *)




(** ** The Stop Selector returns a shortest feasible chain *)

Section AStar.

Local Open Scope Q_scope.

Variable A : arena.
Hypothesis Htri : triangle_inequality A.
Hypothesis Hroad : straight_line_below_distance A.

Lemma consistent (u v : node) : h A u <= distance A u v + h A v.
Proof.
  unfold h. pose proof (Htri u v Destination). pose proof (Hroad u v). lra.
Qed.

Lemma distance_self_nonneg (u : node) : 0 <= distance A u u.
Proof. pose proof (consistent u u). lra. Qed.

Lemma Qlt_bool_true (a b : Q) : Qlt_bool a b = true -> a < b.
Proof.
  unfold Qlt_bool. intros H. apply negb_true_iff in H.
  destruct (Qlt_le_dec a b) as [Hlt|Hle]; [exact Hlt|].
  apply Qle_bool_iff in Hle. congruence.
Qed.

Lemma Qlt_bool_false (a b : Q) : Qlt_bool a b = false -> b <= a.
Proof.
  unfold Qlt_bool. intros H. apply negb_false_iff in H. apply Qle_bool_iff. exact H.
Qed.

Lemma better_le (x y : entry) : better A x y = true -> f A x <= f A y.
Proof.
  unfold better. intros H. apply orb_true_iff in H. destruct H as [H|H].
  - apply Qlt_bool_true in H. lra.
  - apply andb_true_iff in H. destruct H as [H _].
    apply Qeq_bool_iff in H. lra.
Qed.

Lemma not_better_le (x y : entry) : better A x y = false -> f A y <= f A x.
Proof.
  unfold better. intros H. apply orb_false_iff in H. destruct H as [H _].
  apply Qlt_bool_false. exact H.
Qed.

Lemma pop_min_None (fr : list entry) : pop_min A fr = None -> fr = [].
Proof.
  destruct fr as [|e later]; [reflexivity|]. simpl.
  destruct (pop_min A later) as [[m later']|]; [|discriminate].
  destruct (better A m e); discriminate.
Qed.

Lemma pop_min_spec (fr : list entry) (e : entry) (rest : list entry) :
  pop_min A fr = Some (e, rest) ->
  fr ≡ₚ e :: rest /\ forall x, x ∈ fr -> f A e <= f A x.
Proof.
  revert e rest. induction fr as [|e0 later IH]; intros e rest H; [discriminate|].
  simpl in H. destruct (pop_min A later) as [[m later']|] eqn:Hpop.
  - destruct (IH m later' eq_refl) as [Hperm Hmin].
    destruct (better A m e0) eqn:Hb; injection H as <- <-.
    + split.
      * rewrite Hperm. apply Permutation_swap.
      * intros x Hx. apply elem_of_cons in Hx. destruct Hx as [->|Hx].
        -- apply better_le. exact Hb.
        -- apply Hmin. exact Hx.
    + split; [reflexivity|].
      intros x Hx. apply elem_of_cons in Hx. destruct Hx as [->|Hx]; [lra|].
      pose proof (not_better_le m e0 Hb). pose proof (Hmin x Hx). lra.
  - apply pop_min_None in Hpop. subst later. injection H as <- <-.
    split; [reflexivity|]. intros x Hx. apply list_elem_of_singleton in Hx. subst x. lra.
Qed.

Lemma visited_true (u : node) (closed : list entry) :
  visited u closed = true <-> exists e, e ∈ closed /\ at_node e = u.
Proof.
  unfold visited. rewrite existsb_exists. split.
  - intros [e [Hin He]]. exists e. split; [apply list_elem_of_In; exact Hin|].
    apply bool_decide_eq_true in He. exact He.
  - intros [e [Hin He]]. exists e. split; [apply list_elem_of_In; exact Hin|].
    apply bool_decide_eq_true. exact He.
Qed.

Lemma visited_false (u : node) (closed : list entry) (e : entry) :
  visited u closed = false -> e ∈ closed -> at_node e <> u.
Proof.
  intros Hv Hin Heq.
  assert (visited u closed = true) by (apply visited_true; eauto). congruence.
Qed.


Lemma entry_ok_mono (closed closed' : list entry) (e : entry) :
  (forall x, x ∈ closed -> x ∈ closed') ->
  entry_ok A closed e -> entry_ok A closed' e.
Proof.
  intros Hsub [H|[ep [Hin H]]]; [left; exact H|].
  right. exists ep. split; [apply Hsub; exact Hin | exact H].
Qed.

(** Paths that grow at the end. *)

Lemma total_snoc (p : list node) (u v : node) :
  last p = Some u -> total A (p ++ [v]) == total A p + distance A u v.
Proof.
  induction p as [|x p IH]; intros Hlast; [discriminate|].
  destruct p as [|y p].
  - simpl in Hlast. injection Hlast as ->. simpl. lra.
  - change (total A ((x :: y :: p) ++ [v]))
      with (distance A x y + total A ((y :: p) ++ [v])).
    change (total A (x :: y :: p)) with (distance A x y + total A (y :: p)).
    rewrite IH by exact Hlast. lra.
Qed.

Lemma feasible_snoc (p : list node) (u v : node) :
  last p = Some u -> feasible A p -> distance A u v <= budget A u ->
  feasible A (p ++ [v]).
Proof.
  induction p as [|x p IH]; intros Hlast Hp Huv; [discriminate|].
  destruct p as [|y p].
  - simpl in Hlast. injection Hlast as ->. simpl. split; [exact Huv | exact I].
  - change (feasible A ((x :: y :: p) ++ [v]))
      with (distance A x y <= budget A x /\ feasible A ((y :: p) ++ [v])).
    destruct Hp as [Hxy Hp]. split; [exact Hxy|]. apply IH; assumption.
Qed.

Lemma stops_of_map (idxs : list nat) : stops_of (map Stop idxs) = idxs.
Proof. induction idxs as [|i idxs IH]; simpl; [reflexivity | rewrite IH; reflexivity]. Qed.

(** The parent pointers of a closed node lead back to the origin along a
    feasible path of length [g]. *)
Lemma chain_path (closed : list entry) :
  closed_ok A closed ->
  forall ep, ep ∈ closed ->
  exists idxs,
    rev (chain closed (Some (at_node ep))) = Origin :: map Stop idxs /\
    last (Origin :: map Stop idxs) = Some (at_node ep) /\
    Forall (fun i => (i < stops A)%nat) idxs /\
    feasible A (Origin :: map Stop idxs) /\
    total A (Origin :: map Stop idxs) == g ep.
Proof.
  induction closed as [|x older IH]; intros Hok ep Hin; [inversion Hin|].
  destruct Hok as [Hok [Hfresh [Hnd Hx]]].
  simpl chain. destruct (bool_decide (at_node x = at_node ep)) eqn:Hdec.
  - apply bool_decide_eq_true in Hdec.
    assert (ep = x) as ->.
    { apply elem_of_cons in Hin. destruct Hin as [->|Hin]; [reflexivity|].
      exfalso. eapply visited_false; eauto. }
    destruct Hx as [[Ho [Hp Hg]]|[p [Hpin [Hp [Hg [Hb Ht]]]]]].
    + rewrite Hp. exists []. rewrite Ho.
      destruct older; simpl; (split; [reflexivity|]);
        (split; [reflexivity|]); (split; [constructor|]);
        (split; [exact I|]); lra.
    + rewrite Hp. destruct (IH Hok p Hpin) as [idxs [Hrev [Hlast [Hval [Hfe Htot]]]]].
      destruct Ht as [Ht|[i [Ht Hi]]]; [contradiction|].
      exists (idxs ++ [i]).
      assert (Hshape : Origin :: map Stop (idxs ++ [i])
                       = (Origin :: map Stop idxs) ++ [at_node x]).
      { rewrite Ht, map_app. reflexivity. }
      rewrite Hshape. split; [|split; [|split; [|split]]].
      * simpl rev. rewrite Hrev. reflexivity.
      * rewrite last_snoc. reflexivity.
      * apply Forall_app. split; [exact Hval|]. repeat constructor. exact Hi.
      * apply (feasible_snoc _ (at_node p)); assumption.
      * rewrite (total_snoc _ (at_node p)) by exact Hlast. lra.
  - apply bool_decide_eq_false in Hdec.
    apply elem_of_cons in Hin. destruct Hin as [->|Hin]; [contradiction|].
    apply IH; assumption.
Qed.

Lemma expand_elem (e : entry) (closed : list entry) (e' : entry) :
  e' ∈ expand A e closed ->
  exists v, e' = {| at_node := v; g := g e + distance A (at_node e) v;
                    parent := Some (at_node e) |} /\
            is_target A v /\
            distance A (at_node e) v <= budget A (at_node e).
Proof.
  unfold expand. rewrite list_elem_of_fmap.
  intros [v [-> Hv]]. exists v. split; [reflexivity|].
  apply list_elem_of_In, filter_In in Hv. destruct Hv as [Hv Hb].
  unfold within_budget in Hb. apply Qle_bool_iff in Hb.
  split; [|exact Hb].
  unfold targets in Hv. simpl in Hv. destruct Hv as [<-|Hv]; [left; reflexivity|].
  apply filter_In in Hv. destruct Hv as [Hv _].
  apply in_map_iff in Hv. destruct Hv as [i [<- Hi]]. apply in_seq in Hi.
  right. exists i. split; [reflexivity | lia].
Qed.

Lemma expand_has (e : entry) (closed : list entry) (v : node) :
  is_target A v -> visited v closed = false ->
  distance A (at_node e) v <= budget A (at_node e) ->
  {| at_node := v; g := g e + distance A (at_node e) v;
     parent := Some (at_node e) |} ∈ expand A e closed.
Proof.
  intros Ht Hnv Hb. unfold expand. rewrite list_elem_of_fmap.
  exists v. split; [reflexivity|].
  apply list_elem_of_In, filter_In. split.
  - unfold targets. destruct Ht as [->|[i [-> Hi]]]; [left; reflexivity|].
    right. apply filter_In. split.
    + apply in_map_iff. exists i. split; [reflexivity|]. apply in_seq. lia.
    + rewrite Hnv. reflexivity.
  - unfold within_budget. apply Qle_bool_iff. exact Hb.
Qed.

Lemma closed_no_destination (closed : list entry) :
  closed_ok A closed -> visited Destination closed = false.
Proof.
  induction closed as [|x older IH]; intros Hok; [reflexivity|].
  destruct Hok as [Hok [_ [Hnd _]]]. simpl.
  rewrite bool_decide_eq_false_2 by exact Hnd. simpl. apply IH. exact Hok.
Qed.

(** The heuristic never overestimates what remains of a path. *)
Lemma h_le_total (rest : list nat) (v : node) :
  h A v <= total A (v :: map Stop rest ++ [Destination]) + h A Destination.
Proof.
  revert v. induction rest as [|i rest IH]; intros v.
  - simpl. pose proof (consistent v Destination). lra.
  - change (total A (v :: map Stop (i :: rest) ++ [Destination]))
      with (distance A v (Stop i) + total A (Stop i :: map Stop rest ++ [Destination])).
    pose proof (consistent v (Stop i)). pose proof (IH (Stop i)). lra.
Qed.

(** While the destination has not been popped, every feasible continuation
    from a closed node has a representative on the frontier that is at least
    as promising. *)
Lemma path_bound (frontier closed : list entry) :
  search_inv A frontier closed ->
  forall rest eu,
    eu ∈ closed ->
    Forall (fun i => (i < stops A)%nat) rest ->
    feasible A (at_node eu :: map Stop rest ++ [Destination]) ->
    exists e', e' ∈ frontier /\
      f A e' <= g eu + total A (at_node eu :: map Stop rest ++ [Destination])
                + h A Destination.
Proof.
  intros Hinv. induction rest as [|i rest IH]; intros eu Hin Hval Hfe.
  - simpl in Hfe. destruct Hfe as [Hb _].
    destruct (inv_covered _ _ _ Hinv eu Destination Hin) as [e' [He' [Hat Hg]]];
      [left; reflexivity | apply closed_no_destination, (inv_closed _ _ _ Hinv) | exact Hb |].
    exists e'. split; [exact He'|]. unfold f. rewrite Hat. simpl. lra.
  - change (feasible A (at_node eu :: map Stop (i :: rest) ++ [Destination]))
      with (distance A (at_node eu) (Stop i) <= budget A (at_node eu) /\
            feasible A (Stop i :: map Stop rest ++ [Destination])) in Hfe.
    change (total A (at_node eu :: map Stop (i :: rest) ++ [Destination]))
      with (distance A (at_node eu) (Stop i)
            + total A (Stop i :: map Stop rest ++ [Destination])).
    destruct Hfe as [Hb Hfe]. inversion Hval as [|? ? Hi Hval']; subst.
    destruct (visited (Stop i) closed) eqn:Hv.
    + apply visited_true in Hv. destruct Hv as [ei [Hei Hati]].
      pose proof (inv_relaxed _ _ _ Hinv eu ei i Hin Hei Hati Hb) as Hrel.
      destruct (IH ei Hei Hval') as [e' [He' Hf]]; [rewrite Hati; exact Hfe|].
      exists e'. split; [exact He'|]. rewrite Hati in Hf. lra.
    + destruct (inv_covered _ _ _ Hinv eu (Stop i) Hin) as [e' [He' [Hat Hg]]];
        [right; exists i; split; [reflexivity | exact Hi] | exact Hv | exact Hb |].
      exists e'. split; [exact He'|]. unfold f. rewrite Hat.
      pose proof (h_le_total rest (Stop i)). lra.
Qed.


Lemma search_inv_start : search_inv A [origin_entry] [].
Proof.
  split.
  - exact I.
  - intros e He. apply list_elem_of_singleton in He. subst e.
    left. repeat split; simpl; lra.
  - left. split; reflexivity.
  - intros e1 e2 i H. inversion H.
  - intros e1 v H. inversion H.
  - intros ec e' H. inversion H.
Qed.

Lemma popped_cases (fr : list entry) (e : entry) (rest : list entry) (x : entry) :
  fr ≡ₚ e :: rest -> x ∈ fr -> x = e \/ x ∈ rest.
Proof. intros Hperm Hx. rewrite Hperm in Hx. apply elem_of_cons in Hx. exact Hx. Qed.

Lemma rest_in_frontier (fr : list entry) (e : entry) (rest : list entry) (x : entry) :
  fr ≡ₚ e :: rest -> x ∈ rest -> x ∈ fr.
Proof. intros Hperm Hx. rewrite Hperm. right. exact Hx. Qed.

Lemma popped_in_frontier (fr : list entry) (e : entry) (rest : list entry) :
  fr ≡ₚ e :: rest -> e ∈ fr.
Proof. intros Hperm. rewrite Hperm. left. Qed.

(** Popping an entry whose node is already closed keeps the invariant. *)
Lemma search_inv_skip (frontier closed : list entry) (e : entry) (rest : list entry) :
  search_inv A frontier closed ->
  pop_min A frontier = Some (e, rest) ->
  visited (at_node e) closed = true ->
  search_inv A rest closed.
Proof.
  intros Hinv Hpop Hvis.
  destruct (pop_min_spec _ _ _ Hpop) as [Hperm Hmin].
  split.
  - exact (inv_closed _ _ _ Hinv).
  - intros x Hx. apply (inv_frontier _ _ _ Hinv). eapply rest_in_frontier; eauto.
  - destruct (inv_origin _ _ _ Hinv) as [[-> _]|H]; [discriminate | right; exact H].
  - exact (inv_relaxed _ _ _ Hinv).
  - intros e1 v Hin Ht Hnv Hb.
    destruct (inv_covered _ _ _ Hinv e1 v Hin Ht Hnv Hb) as [e' [He' [Hat Hg]]].
    exists e'. split; [|split; assumption].
    destruct (popped_cases _ _ _ _ Hperm He') as [->|Hr]; [|exact Hr].
    rewrite Hat in Hvis. congruence.
  - intros ec e' Hc He'. apply (inv_monotone _ _ _ Hinv); [exact Hc|].
    eapply rest_in_frontier; eauto.
Qed.

Lemma visited_cons (u : node) (e : entry) (closed : list entry) :
  visited u (e :: closed) = false -> at_node e <> u /\ visited u closed = false.
Proof.
  simpl. intros H. apply orb_false_iff in H. destruct H as [H1 H2].
  apply bool_decide_eq_false in H1. split; assumption.
Qed.

(** Closing the popped node and pushing its edges keeps the invariant. *)
Lemma search_inv_expand (frontier closed : list entry) (e : entry) (rest : list entry) :
  search_inv A frontier closed ->
  pop_min A frontier = Some (e, rest) ->
  visited (at_node e) closed = false ->
  at_node e <> Destination ->
  search_inv A (rest ++ expand A e (e :: closed)) (e :: closed).
Proof.
  intros Hinv Hpop Hvis Hnd.
  destruct (pop_min_spec _ _ _ Hpop) as [Hperm Hmin].
  pose proof (popped_in_frontier _ _ _ Hperm) as Hein.
  pose proof (inv_frontier _ _ _ Hinv e Hein) as Heok.
  assert (Hnew : forall x, x ∈ expand A e (e :: closed) -> f A e <= f A x).
  { intros x Hx. apply expand_elem in Hx. destruct Hx as [v [-> _]].
    unfold f. simpl. pose proof (consistent (at_node e) v). lra. }
  split.
  - simpl. repeat split; try assumption. exact (inv_closed _ _ _ Hinv).
  - intros x Hx. apply elem_of_app in Hx. destruct Hx as [Hx|Hx].
    + apply (entry_ok_mono closed); [intros y Hy; right; exact Hy|].
      apply (inv_frontier _ _ _ Hinv). eapply rest_in_frontier; eauto.
    + apply expand_elem in Hx. destruct Hx as [v [-> [Ht Hb]]].
      right. exists e. simpl. split; [left|]. repeat split; try assumption; lra.
  - right. destruct (inv_origin _ _ _ Hinv) as [[-> Hfr]|[eo [Heo H]]].
    + rewrite Hfr in Hein. apply list_elem_of_singleton in Hein. subst e.
      exists origin_entry. split; [left|]. split; simpl; [reflexivity | lra].
    + exists eo. split; [right; exact Heo | exact H].
  - intros e1 e2 i H1 H2 Hat Hb.
    apply elem_of_cons in H1. apply elem_of_cons in H2.
    destruct H1 as [->|H1], H2 as [->|H2].
    + rewrite <- Hat. pose proof (distance_self_nonneg (at_node e)). lra.
    + pose proof (inv_monotone _ _ _ Hinv e2 e H2 Hein) as Hm. unfold f in Hm.
      rewrite Hat in Hm. pose proof (consistent (at_node e) (Stop i)). lra.
    + destruct Heok as [[Ho _]|[ep [_ [_ [_ [_ Ht]]]]]]; [congruence|].
      rewrite Hat in Ht, Hvis.
      destruct (inv_covered _ _ _ Hinv e1 (Stop i) H1 Ht Hvis Hb) as [e' [He' [Hat' Hg]]].
      pose proof (Hmin e' He') as Hm. unfold f in Hm. rewrite Hat, Hat' in Hm. lra.
    + exact (inv_relaxed _ _ _ Hinv e1 e2 i H1 H2 Hat Hb).
  - intros e1 v H1 Ht Hnv Hb.
    apply visited_cons in Hnv. destruct Hnv as [Hne Hnv].
    apply elem_of_cons in H1. destruct H1 as [->|H1].
    + eexists. split; [apply elem_of_app; right; apply (expand_has e (e :: closed) v Ht)|].
      * simpl. rewrite bool_decide_eq_false_2 by exact Hne. exact Hnv.
      * exact Hb.
      * simpl. split; [reflexivity | lra].
    + destruct (inv_covered _ _ _ Hinv e1 v H1 Ht Hnv Hb) as [e' [He' [Hat Hg]]].
      exists e'. split; [|split; assumption]. apply elem_of_app. left.
      destruct (popped_cases _ _ _ _ Hperm He') as [->|Hr]; [contradiction | exact Hr].
  - intros ec e' Hc He'.
    assert (Hec : f A ec <= f A e).
    { apply elem_of_cons in Hc. destruct Hc as [->|Hc]; [lra|].
      exact (inv_monotone _ _ _ Hinv ec e Hc Hein). }
    apply elem_of_app in He'. destruct He' as [He'|He'].
    + pose proof (Hmin e' (rest_in_frontier _ _ _ _ Hperm He')). lra.
    + pose proof (Hnew e' He'). lra.
Qed.

(** When the destination is popped, the parent pointers give a feasible
    route over the candidates that no feasible route beats. *)
Lemma search_inv_goal (frontier closed : list entry) (e : entry) (rest : list entry) :
  search_inv A frontier closed ->
  pop_min A frontier = Some (e, rest) ->
  at_node e = Destination ->
  let chosen := stops_of (rev (chain closed (parent e))) in
  Forall (fun i => (i < stops A)%nat) chosen /\
  feasible A (route chosen) /\
  total A (route chosen) == g e /\
  forall other,
    Forall (fun i => (i < stops A)%nat) other ->
    feasible A (route other) ->
    total A (route chosen) <= total A (route other).
Proof.
  intros Hinv Hpop Hat. cbv zeta.
  destruct (pop_min_spec _ _ _ Hpop) as [Hperm Hmin].
  pose proof (popped_in_frontier _ _ _ Hperm) as Hein.
  destruct (inv_frontier _ _ _ Hinv e Hein) as [[Ho _]|[ep [Hep [Hp [Hg [Hb _]]]]]];
    [congruence|].
  destruct (chain_path closed (inv_closed _ _ _ Hinv) ep Hep)
    as [idxs [Hrev [Hlast [Hval [Hfe Htot]]]]].
  rewrite Hp, Hrev. simpl stops_of. rewrite stops_of_map.
  assert (Hroute : route idxs = (Origin :: map Stop idxs) ++ [Destination]) by reflexivity.
  rewrite Hat in Hg, Hb.
  assert (Hg' : total A (route idxs) == g e).
  { rewrite Hroute, (total_snoc _ (at_node ep)) by exact Hlast. lra. }
  split; [exact Hval|]. split; [|split; [exact Hg'|]].
  - rewrite Hroute. apply (feasible_snoc _ (at_node ep)); assumption.
  - intros other Hoval Hofe.
    destruct (inv_origin _ _ _ Hinv) as [[-> _]|[eo [Heo [Hato Hgo]]]]; [inversion Hep|].
    destruct (path_bound frontier closed Hinv other eo Heo Hoval) as [e' [He' Hf]].
    { rewrite Hato. exact Hofe. }
    rewrite Hato in Hf. fold (route other) in Hf.
    pose proof (Hmin e' He') as Hm. unfold f in Hm at 1. rewrite Hat in Hm. lra.
Qed.

(** Whatever the cap, a stop sequence that the search returns is feasible
    and of minimal total distance. *)
Lemma search_optimal (fuel : nat) :
  forall frontier closed chosen,
    search_inv A frontier closed ->
    search A fuel frontier closed = Selected chosen ->
    Forall (fun i => (i < stops A)%nat) chosen /\
    feasible A (route chosen) /\
    forall other,
      Forall (fun i => (i < stops A)%nat) other ->
      feasible A (route other) ->
      total A (route chosen) <= total A (route other).
Proof.
  induction fuel as [|fuel IH]; intros frontier closed chosen Hinv Hs; [discriminate|].
  simpl in Hs. destruct (pop_min A frontier) as [[e rest]|] eqn:Hpop; [|discriminate].
  destruct (at_node e) eqn:Hat.
  - destruct (visited Origin closed) eqn:Hv.
    + apply (IH rest closed); [|exact Hs].
      apply (search_inv_skip frontier closed e rest); try assumption. rewrite Hat. exact Hv.
    + apply (IH _ _ _ (search_inv_expand frontier closed e rest Hinv Hpop
                         ltac:(rewrite Hat; exact Hv) ltac:(rewrite Hat; discriminate)) Hs).
  - injection Hs as <-.
    destruct (search_inv_goal frontier closed e rest Hinv Hpop Hat) as [H1 [H2 [_ H3]]].
    split; [exact H1 | split; [exact H2 | exact H3]].
  - destruct (visited (Stop i) closed) eqn:Hv.
    + apply (IH rest closed); [|exact Hs].
      apply (search_inv_skip frontier closed e rest); try assumption. rewrite Hat. exact Hv.
    + apply (IH _ _ _ (search_inv_expand frontier closed e rest Hinv Hpop
                         ltac:(rewrite Hat; exact Hv) ltac:(rewrite Hat; discriminate)) Hs).
Qed.

(** An exhausted frontier means that no feasible route exists. *)
Lemma search_no_chain (fuel : nat) :
  forall frontier closed,
    search_inv A frontier closed ->
    search A fuel frontier closed = NoChain ->
    forall other,
      Forall (fun i => (i < stops A)%nat) other ->
      ~ feasible A (route other).
Proof.
  induction fuel as [|fuel IH]; intros frontier closed Hinv Hs other Hval Hfe;
    [discriminate|].
  simpl in Hs. destruct (pop_min A frontier) as [[e rest]|] eqn:Hpop.
  - destruct (at_node e) eqn:Hat.
    + destruct (visited Origin closed) eqn:Hv.
      * apply (IH rest closed) with (other := other); try assumption.
        apply (search_inv_skip frontier closed e rest); try assumption.
        rewrite Hat. exact Hv.
      * apply (IH _ _ (search_inv_expand frontier closed e rest Hinv Hpop
                         ltac:(rewrite Hat; exact Hv) ltac:(rewrite Hat; discriminate))
                  Hs other); assumption.
    + discriminate.
    + destruct (visited (Stop i) closed) eqn:Hv.
      * apply (IH rest closed) with (other := other); try assumption.
        apply (search_inv_skip frontier closed e rest); try assumption.
        rewrite Hat. exact Hv.
      * apply (IH _ _ (search_inv_expand frontier closed e rest Hinv Hpop
                         ltac:(rewrite Hat; exact Hv) ltac:(rewrite Hat; discriminate))
                  Hs other); assumption.
  - apply pop_min_None in Hpop. subst frontier.
    destruct (inv_origin _ _ _ Hinv) as [[_ Hfr]|[eo [Heo [Hato _]]]]; [discriminate|].
    destruct (path_bound [] closed Hinv other eo Heo Hval) as [e' [He' _]].
    + rewrite Hato. exact Hfe.
    + inversion He'.
Qed.

End AStar.

(** *** The cap is never reached when it is large enough *)

Section Termination.

Variable A : arena.

Lemma well_formed_start : well_formed A [origin_entry] [].
Proof.
  split; [exact I|]. intros e He. apply list_elem_of_singleton in He. subst e.
  left. repeat split; simpl; reflexivity.
Qed.

Lemma pop_min_perm (fr : list entry) (e : entry) (rest : list entry) :
  pop_min A fr = Some (e, rest) -> fr ≡ₚ e :: rest.
Proof.
  revert e rest. induction fr as [|e0 later IH]; intros e rest H; [discriminate|].
  simpl in H. destruct (pop_min A later) as [[m later']|] eqn:Hpop.
  - pose proof (IH m later' eq_refl) as Hperm.
    destruct (better A m e0); injection H as <- <-.
    + rewrite Hperm. apply Permutation_swap.
    + reflexivity.
  - apply pop_min_None in Hpop. subst later. injection H as <- <-. reflexivity.
Qed.

Lemma well_formed_skip (frontier closed : list entry) (e : entry) (rest : list entry) :
  well_formed A frontier closed ->
  pop_min A frontier = Some (e, rest) ->
  well_formed A rest closed.
Proof.
  intros [Hc Hf] Hpop. split; [exact Hc|].
  intros x Hx. apply Hf. rewrite (pop_min_perm _ _ _ Hpop). right. exact Hx.
Qed.

Lemma well_formed_expand (frontier closed : list entry) (e : entry) (rest : list entry) :
  well_formed A frontier closed ->
  pop_min A frontier = Some (e, rest) ->
  visited (at_node e) closed = false ->
  at_node e <> Destination ->
  well_formed A (rest ++ expand A e (e :: closed)) (e :: closed).
Proof.
  intros [Hc Hf] Hpop Hvis Hnd.
  pose proof (pop_min_perm _ _ _ Hpop) as Hperm.
  assert (Hein : e ∈ frontier) by (rewrite Hperm; left).
  split.
  - simpl. repeat split; try assumption. apply Hf. exact Hein.
  - intros x Hx. apply elem_of_app in Hx. destruct Hx as [Hx|Hx].
    + apply (entry_ok_mono A closed); [intros y Hy; right; exact Hy|].
      apply Hf. rewrite Hperm. right. exact Hx.
    + apply expand_elem in Hx. destruct Hx as [v [-> [Ht Hb]]].
      right. exists e. simpl. split; [left|].
      repeat split; try assumption; reflexivity.
Qed.

Lemma closed_nodes (closed : list entry) :
  closed_ok A closed ->
  List.NoDup (map at_node closed) /\ incl (map at_node closed) (closable A).
Proof.
  induction closed as [|e older IH]; intros Hok.
  - split; [constructor | intros x Hx; inversion Hx].
  - destruct Hok as [Hok [Hfresh [Hnd He]]]. destruct (IH Hok) as [Hnodup Hincl].
    split.
    + simpl. constructor; [|exact Hnodup].
      intros Hin. apply in_map_iff in Hin. destruct Hin as [x [Hx Hxin]].
      apply list_elem_of_In in Hxin.
      exact (visited_false (at_node e) older x Hfresh Hxin Hx).
    + intros x Hx. simpl in Hx. destruct Hx as [<-|Hx]; [|apply Hincl; exact Hx].
      destruct He as [[Ho _]|[_ [_ [_ [_ [_ Ht]]]]]].
      * rewrite Ho. left. reflexivity.
      * destruct Ht as [Ht|[i [Ht Hi]]]; [contradiction|].
        rewrite Ht. right. apply in_map_iff. exists i. split; [reflexivity|].
        apply in_seq. lia.
Qed.

Lemma closed_bound (closed : list entry) :
  closed_ok A closed -> length closed <= stops A + 1.
Proof.
  intros Hok. destruct (closed_nodes closed Hok) as [Hnodup Hincl].
  pose proof (NoDup_incl_length Hnodup Hincl) as H.
  rewrite length_map in H. unfold closable in H. simpl in H.
  rewrite length_map, length_seq in H. lia.
Qed.

Lemma expand_length (e : entry) (closed : list entry) :
  length (expand A e closed) <= stops A + 1.
Proof.
  unfold expand. rewrite length_map.
  etransitivity; [apply filter_length_le|].
  unfold targets. simpl.
  pose proof (filter_length_le (fun v => negb (visited v closed)) (map Stop (seq 0 (stops A)))) as H.
  rewrite length_map, length_seq in H. lia.
Qed.

Lemma search_within_cap (fuel : nat) :
  forall frontier closed,
    well_formed A frontier closed ->
    pops_left A frontier closed < fuel ->
    search A fuel frontier closed <> CapReached.
Proof.
  induction fuel as [|fuel IH]; intros frontier closed Hwf Hlt; [lia|].
  simpl. destruct (pop_min A frontier) as [[e rest]|] eqn:Hpop; [|discriminate].
  assert (Hlen : length frontier = S (length rest)).
  { rewrite (pop_min_perm _ _ _ Hpop). reflexivity. }
  assert (Hskip : search A fuel rest closed <> CapReached).
  { apply IH; [eapply well_formed_skip; eauto|].
    unfold pops_left in *. lia. }
  assert (Hexp : visited (at_node e) closed = false -> at_node e <> Destination ->
                 search A fuel (rest ++ expand A e (e :: closed)) (e :: closed)
                 <> CapReached).
  { intros Hv Hnd.
    pose proof (well_formed_expand _ _ _ _ Hwf Hpop Hv Hnd) as Hwf'.
    apply IH; [exact Hwf'|].
    pose proof (closed_bound _ (proj1 Hwf')) as Hb. simpl in Hb.
    pose proof (expand_length e (e :: closed)) as He.
    unfold pops_left in *. rewrite length_app. simpl length.
    nia. }
  destruct (at_node e) eqn:Hat.
  - destruct (visited Origin closed) eqn:Hv; [exact Hskip|].
    apply Hexp; [reflexivity | discriminate].
  - discriminate.
  - destruct (visited (Stop i) closed) eqn:Hv; [exact Hskip|].
    apply Hexp; [reflexivity | discriminate].
Qed.

End Termination.

(** INFEASIBLE is only reported when no chain of candidates is feasible. *)
Lemma selectStops_no_chain (A : arena) :
  triangle_inequality A ->
  straight_line_below_distance A ->
  selectStops A = NoChain ->
  forall other,
    Forall (fun i => (i < stops A)%nat) other ->
    ~ feasible A (route other).
Proof.
  intros Htri Hroad Hsel other Hval Hfe. unfold selectStops in Hsel.
  destruct (Nat.eqb (stops A) 0 && negb (within_budget A Origin Destination)) eqn:Hearly.
  - apply andb_true_iff in Hearly. destruct Hearly as [Hn Hb].
    apply Nat.eqb_eq in Hn. apply negb_true_iff in Hb.
    destruct other as [|i other].
    + simpl in Hfe. destruct Hfe as [Hfe _].
      unfold within_budget in Hb. simpl in Hb. apply Qle_bool_iff in Hfe. congruence.
    + inversion Hval; subst. lia.
  - exact (search_no_chain A Htri Hroad (search_cap A) [origin_entry] []
             (search_inv_start A) Hsel other Hval Hfe).
Qed.

(** A cap above [(stops + 1)^2 + 1] is never reached. *)
Lemma selectStops_within_cap (A : arena) :
  ((stops A + 1) * (stops A + 1) + 1 < search_cap A)%nat ->
  selectStops A <> CapReached.
Proof.
  intros Hcap. unfold selectStops.
  destruct (Nat.eqb (stops A) 0 && negb (within_budget A Origin Destination));
    [discriminate|].
  apply search_within_cap; [apply well_formed_start|].
  unfold pops_left. simpl. lia.
Qed.

(** With such a cap, a stop sequence is returned whenever some chain of
    candidates is feasible. *)
Lemma selectStops_finds (A : arena) (other : list nat) :
  triangle_inequality A ->
  straight_line_below_distance A ->
  ((stops A + 1) * (stops A + 1) + 1 < search_cap A)%nat ->
  Forall (fun i => (i < stops A)%nat) other ->
  feasible A (route other) ->
  exists chosen, selectStops A = Selected chosen.
Proof.
  intros Htri Hroad Hcap Hval Hfe.
  destruct (selectStops A) as [chosen| |] eqn:Hsel.
  - exists chosen. reflexivity.
  - exfalso. exact (selectStops_no_chain A Htri Hroad Hsel other Hval Hfe).
  - exfalso. exact (selectStops_within_cap A Hcap Hsel).
Qed.

Lemma on_a_line_triangle (position : node -> Q) (n : nat) (initial full : Q) (cap : nat) :
  triangle_inequality (on_a_line position n initial full cap).
Proof.
  intros a b c. unfold on_a_line. cbn [straight_line].
  assert (H : (position a - position c
               == (position a - position b) + (position b - position c))%Q) by ring.
  apply (Qle_trans _ (Qabs ((position a - position b) + (position b - position c)))).
  - apply Qle_lteq. right. exact (Qabs_wd _ _ H).
  - apply Qabs_triangle.
Qed.

Lemma on_a_line_below (position : node -> Q) (n : nat) (initial full : Q) (cap : nat) :
  straight_line_below_distance (on_a_line position n initial full cap).
Proof. intros a b. unfold on_a_line. cbn [straight_line distance]. apply Qle_refl. Qed.

(** C1 (A* optimality): with a straight-line distance that obeys the
    triangle inequality and never exceeds the edge distance, whenever the
    Stop Selector returns a stop sequence, its stops are candidates, every
    hop of origin -> stops -> destination is within the budget of the hop's
    start node (initial range at the origin, full range at a stop), and its
    total distance is at most that of every other sequence of candidates
    whose hops are all within budget. *)
Theorem selectStops_optimal (A : arena) (chosen : list nat) :
  triangle_inequality A ->
  straight_line_below_distance A ->
  selectStops A = Selected chosen ->
  Forall (fun i => (i < stops A)%nat) chosen /\
  feasible A (route chosen) /\
  forall other,
    Forall (fun i => (i < stops A)%nat) other ->
    feasible A (route other) ->
    (total A (route chosen) <= total A (route other))%Q.
Proof.
  intros Htri Hroad Hsel. unfold selectStops in Hsel.
  destruct (Nat.eqb (stops A) 0 && negb (within_budget A Origin Destination));
    [discriminate|].
  exact (search_optimal A Htri Hroad (search_cap A) [origin_entry] [] chosen
           (search_inv_start A) Hsel).
Qed.

Lemma selectStops_optimal_witness :
  selectStops example_corridor = Selected [0; 2; 3]%nat /\
  (total example_corridor (route [0; 2; 3]%nat)
   <= total example_corridor (route [0; 1; 2; 3]%nat))%Q.
Proof.
  assert (Hsel : selectStops example_corridor = Selected [0; 2; 3]%nat)
    by (vm_compute; reflexivity).
  split; [exact Hsel|].
  refine (proj2 (proj2 (selectStops_optimal example_corridor [0; 2; 3]%nat
                          (on_a_line_triangle _ _ _ _ _) (on_a_line_below _ _ _ _ _)
                          Hsel)) [0; 1; 2; 3]%nat _ _).
  - repeat constructor.
  - simpl. unfold Qle. simpl. repeat split; lia.
Defined.

(** ** The Range Estimator *)

(** C4 (range estimation): for a model with a positive maximum range and a
    battery percent [p] in [0,100], [estimateRange] returns
    [maxRange * p / 100]; the result is not negative, and a larger percent
    (still at most 100) gives a range at least as large. *)
Theorem estimateRange_linear_monotone (m : EVModel) (p : Z) :
  (0 < maxRange m)%Q ->
  (0 <= p <= 100)%Z ->
  estimateRange (Some m) p = inr (maxRange m * inject_Z p / 100)%Q /\
  (0 <= maxRange m * inject_Z p / 100)%Q /\
  forall p2, (p <= p2 <= 100)%Z ->
    estimateRange (Some m) p2 = inr (maxRange m * inject_Z p2 / 100)%Q /\
    (maxRange m * inject_Z p / 100 <= maxRange m * inject_Z p2 / 100)%Q.
Proof.
  intros Hmax Hp.
  assert (Hval : forall q, (0 <= q <= 100)%Z ->
            estimateRange (Some m) q = inr (maxRange m * inject_Z q / 100)%Q /\
            (0 <= maxRange m * inject_Z q / 100)%Q).
  { intros q Hq.
    assert (Hq0 : (0 <= inject_Z q)%Q) by (unfold Qle; simpl; lia).
    assert (Hnn : (0 <= maxRange m * inject_Z q / 100)%Q).
    { unfold Qdiv. apply Qmult_le_0_compat; [|unfold Qle; simpl; lia].
      apply Qmult_le_0_compat; [lra | exact Hq0]. }
    split; [|exact Hnn]. unfold estimateRange.
    replace ((0 <=? q)%Z && (q <=? 100)%Z) with true
      by (symmetry; apply andb_true_iff; split; apply Z.leb_le; lia).
    rewrite (Qle_bool_true _ _ Hnn). reflexivity. }
  destruct (Hval p Hp) as [He Hnn]. split; [exact He|]. split; [exact Hnn|].
  intros p2 Hp2. destruct (Hval p2 ltac:(lia)) as [He2 _]. split; [exact He2|].
  unfold Qdiv. apply Qmult_le_compat_r; [|unfold Qle; simpl; lia].
  assert (Hle : (inject_Z p <= inject_Z p2)%Q) by (rewrite <- Zle_Qle; lia).
  rewrite !(Qmult_comm (maxRange m)). apply Qmult_le_compat_r; [exact Hle | lra].
Qed.

Lemma estimateRange_linear_monotone_witness :
  estimateRange (Some scenario_model) 80 = inr (300 * inject_Z 80 / 100)%Q.
Proof.
  refine (proj1 (estimateRange_linear_monotone scenario_model 80 _ _)).
  - reflexivity.
  - lia.
Defined.

(** ** The scenarios of the specification *)

(** Scenario 1: 150 km with 80% of 300 km is a direct trip. *)
Example scenario_direct :
  estimateRange (Some scenario_model) 80 = inr (300 * inject_Z 80 / 100)%Q /\
  classify_spec 150 (300 * inject_Z 80 / 100) = inr DIRECT.
Proof. split; reflexivity. Qed.

(** Scenario 2: the one candidate is the stop list. *)
Example scenario_single_stop_selected :
  classify_spec 400 150 = inr REQUIRES_CHARGING /\
  selectStops scenario_single_stop = Selected [0%nat].
Proof. split; [reflexivity | vm_compute; reflexivity]. Qed.

(** Scenario 3: no chain of candidates is within range. *)
Example scenario_infeasible_no_chain :
  classify_spec 500 100 = inr REQUIRES_CHARGING /\
  selectStops scenario_infeasible = NoChain.
Proof. split; [reflexivity | vm_compute; reflexivity]. Qed.

(** Scenario 4: a battery percent of 120 is invalid input for the core. *)
Example scenario_invalid_battery :
  estimateRange (Some scenario_model) 120 = inl InvalidInput.
Proof. reflexivity. Qed.

(** * Further properties of the front end *)

Import MapLoader Places InFlight Observe.


(** ** One request per call, one log line per failure *)

Lemma getEvModels_trace (net : network) :
  fetches (snd (getEvModels net)) = [models_request] /\
  console_errors (snd (getEvModels net))
    = (if models_failure (net models_request) then 1 else 0)%nat.
Proof.
  unfold getEvModels, fetch, models_failure.
  destruct (net models_request) as [|[o s t j]]; simpl; [split; reflexivity|].
  destruct o; simpl.
  - destruct j as [e|data]; simpl; [split; reflexivity|].
    destruct data; simpl; split; reflexivity.
  - destruct t; simpl; split; reflexivity.
Qed.

Lemma getPrediction_trace (net : network) (a b c d : value) :
  fetches (snd (getPrediction net a b c d)) = [prediction_request a b c d] /\
  console_errors (snd (getPrediction net a b c d))
    = (if prediction_failure (net (prediction_request a b c d)) then 1 else 0)%nat.
Proof.
  unfold getPrediction, fetch, prediction_failure.
  destruct (net _) as [|[o s t j]]; simpl; [split; reflexivity|].
  destruct o; simpl.
  - destruct j as [e|data]; simpl; split; reflexivity.
  - destruct t; simpl; split; reflexivity.
Qed.

(** X1 (one request, one log line): each call of [getEvModels] and of
    [getPrediction] hands exactly one request to [fetch], the one of its
    endpoint, whatever the network does (no retry); it calls [console.error]
    exactly once when the call fails and never when it succeeds. *)
Theorem api_one_request_one_log (net : network) (a b c d : value) :
  (fetches (snd (getEvModels net)) = [models_request] /\
   console_errors (snd (getEvModels net))
     = (if models_failure (net models_request) then 1 else 0)%nat) /\
  (fetches (snd (getPrediction net a b c d)) = [prediction_request a b c d] /\
   console_errors (snd (getPrediction net a b c d))
     = (if prediction_failure (net (prediction_request a b c d)) then 1 else 0)%nat).
Proof. split; [apply getEvModels_trace | apply getPrediction_trace]. Qed.

(** Error messages *)

Lemma getEvModels_failure (net : network) :
  models_failure (net models_request) = true ->
  exists msg, fst (getEvModels net) = Normal (error_object msg) /\ msg <> "".
Proof.
  unfold getEvModels, fetch, models_failure.
  destruct (net models_request) as [|[o s t j]]; simpl.
  - intros _. eexists. split; [reflexivity | discriminate].
  - destruct o; simpl.
    + destruct j as [e|data]; simpl.
      * intros _. eexists. split; [reflexivity | discriminate].
      * destruct data; simpl; try discriminate;
          intros _; eexists; (split; [reflexivity | discriminate]).
    + intros _. destruct t; simpl; eexists; (split; [reflexivity | discriminate]).
Qed.

Lemma getPrediction_failure (net : network) (a b c d : value) :
  prediction_failure (net (prediction_request a b c d)) = true ->
  exists msg, fst (getPrediction net a b c d) = Normal (error_object msg) /\ msg <> "".
Proof.
  unfold getPrediction, fetch, prediction_failure.
  destruct (net _) as [|[o s t j]]; simpl.
  - intros _. eexists. split; [reflexivity | discriminate].
  - destruct o; simpl.
    + destruct j as [e|data]; simpl; try discriminate.
      intros _. eexists. split; [reflexivity | discriminate].
    + intros _. destruct t; simpl; eexists; (split; [reflexivity | discriminate]).
Qed.

Lemma getPrediction_success (net : network) (a b c d : value) (res : response) (data : value) :
  net (prediction_request a b c d) = FetchResolved res ->
  ok res = true -> json res = inr data ->
  getPrediction net a b c d = (Normal data, [EFetch (prediction_request a b c d)]).
Proof.
  intros Hnet Hok Hj. unfold getPrediction, fetch. rewrite Hnet. simpl.
  rewrite Hok. simpl. rewrite Hj. reflexivity.
Qed.

Lemma getEvModels_success (net : network) (res : response) (data : value) :
  net models_request = FetchResolved res ->
  ok res = true -> json res = inr data -> nullish data = false ->
  getEvModels net = (Normal (js_or (optget data "models") (VArr [])), [EFetch models_request]).
Proof.
  intros Hnet Hok Hj Hn. unfold getEvModels, fetch. rewrite Hnet. simpl.
  rewrite Hok. simpl. rewrite Hj. simpl.
  destruct data; try discriminate; reflexivity.
Qed.

Lemma getEvModels_not_ok (net : network) (res : response) (body : string) :
  net models_request = FetchResolved res -> ok res = false -> text res = inr body ->
  fst (getEvModels net)
    = Normal (error_object ("Failed to load EV models: " +:+ pretty (status res))).
Proof.
  intros Hn Ho Hb. unfold getEvModels, fetch. rewrite Hn. simpl.
  rewrite Ho. simpl. rewrite Hb. reflexivity.
Qed.

Lemma getPrediction_not_ok (net : network) (a b c d : value) (res : response) (body : string) :
  net (prediction_request a b c d) = FetchResolved res ->
  ok res = false -> text res = inr body ->
  fst (getPrediction net a b c d)
    = Normal (error_object ("Prediction API failed: " +:+ pretty (status res))).
Proof.
  intros Hn Ho Hb. unfold getPrediction, fetch. rewrite Hn. simpl.
  rewrite Ho. simpl. rewrite Hb. reflexivity.
Qed.

(** X2 (the error message names the status): when the server answers with a
    status that is not ok and a readable body, the error string returned is
    the fixed prefix followed by the status in decimal, for both functions;
    two such answers give the same error object exactly when their statuses
    are equal. *)
Theorem http_error_message_names_the_status
    (res res' : response) (body body' : string) (a b c d : value) :
  ok res = false -> text res = inr body ->
  ok res' = false -> text res' = inr body' ->
  let net := fun _ : request => FetchResolved res in
  let net' := fun _ : request => FetchResolved res' in
  fst (getEvModels net)
    = Normal (error_object ("Failed to load EV models: " +:+ pretty (status res))) /\
  fst (getPrediction net a b c d)
    = Normal (error_object ("Prediction API failed: " +:+ pretty (status res))) /\
  (fst (getEvModels net) = fst (getEvModels net') <-> status res = status res') /\
  (fst (getPrediction net a b c d) = fst (getPrediction net' a b c d)
     <-> status res = status res').
Proof.
  intros Hok Ht Hok' Ht'. cbv zeta.
  rewrite (getEvModels_not_ok (fun _ => FetchResolved res) res body eq_refl Hok Ht).
  rewrite (getEvModels_not_ok (fun _ => FetchResolved res') res' body' eq_refl Hok' Ht').
  rewrite (getPrediction_not_ok (fun _ => FetchResolved res) a b c d res body eq_refl Hok Ht).
  rewrite (getPrediction_not_ok (fun _ => FetchResolved res') a b c d res' body' eq_refl Hok' Ht').
  split; [reflexivity|]. split; [reflexivity|]. split; split.
  - intros Heq. injection Heq as Heq. apply (inj pretty). exact Heq.
  - intros ->. reflexivity.
  - intros Heq. injection Heq as Heq. apply (inj pretty). exact Heq.
  - intros ->. reflexivity.
Qed.

Lemma http_error_message_names_the_status_witness :
  fst (getEvModels (fun _ => FetchResolved
         {| ok := false; status := 404; text := inr "Not Found"; json := inl SyntaxError |}))
    = Normal (error_object "Failed to load EV models: 404").
Proof.
  exact (proj1 (http_error_message_names_the_status
    {| ok := false; status := 404; text := inr "Not Found"; json := inl SyntaxError |}
    {| ok := false; status := 500; text := inr "Oops"; json := inl SyntaxError |}
    "Not Found" "Oops" VNull VNull VNull VNull eq_refl eq_refl eq_refl eq_refl)).
Defined.




Lemma nonempty_eqb (msg : string) : msg <> "" -> String.eqb msg "" = false.
Proof. intros H. apply String.eqb_neq. exact H. Qed.

(** loadModels *)

Lemma loadModels_failure (net : network) (st : AppState) :
  models_failure (net models_request) = true ->
  exists msg,
    msg <> "" /\
    after (loadModels net st) = setError (VStr msg) st /\
    completed (loadModels net st) = Normal tt.
Proof.
  intros Hf. destruct (getEvModels_failure net Hf) as [msg [Hv Hmsg]].
  exists msg. split; [exact Hmsg|]. unfold loadModels.
  destruct (getEvModels net) as [r tr]. simpl in Hv. subst r. simpl.
  rewrite (nonempty_eqb msg Hmsg). split; reflexivity.
Qed.

(** X3 (a failed load of the models is shown): when [getEvModels] fails
    (rejected fetch, status not ok, unreadable or unparsable body, body
    [null]), the mount effect completes normally, puts a non-empty string into
    [error], and leaves [evModels] and [selectedModel] as they were. *)
Theorem mount_failure_shows_error (net : network) (st : AppState) :
  models_failure (net models_request) = true ->
  exists msg,
    msg <> "" /\
    error (after (loadModels net st)) = VStr msg /\
    evModels (after (loadModels net st)) = evModels st /\
    selectedModel (after (loadModels net st)) = selectedModel st /\
    completed (loadModels net st) = Normal tt.
Proof.
  intros Hf. destruct (loadModels_failure net st Hf) as [msg [Hmsg [Ha Hc]]].
  exists msg. rewrite Ha, Hc. repeat split; try reflexivity. exact Hmsg.
Qed.

Lemma mount_failure_shows_error_witness :
  exists msg, msg <> "" /\
    error (after (loadModels (fun _ => FetchRejected) initial)) = VStr msg.
Proof.
  destruct (mount_failure_shows_error (fun _ => FetchRejected) initial eq_refl)
    as [msg [H1 [H2 _]]].
  exists msg. split; assumption.
Defined.


(** X4 (the first model is selected): when the models load and
    [data.models] is a non-empty array, [evModels] becomes that array and
    [selectedModel] its first element; when [data.models] is absent, falsy or
    an empty array, [evModels] becomes the empty array and [selectedModel] is
    not touched. *)
Theorem mount_success_selects_first (net : network) (st : AppState)
    (res : response) (data : value) :
  net models_request = FetchResolved res ->
  ok res = true -> json res = inr data -> nullish data = false ->
  (forall m rest,
     optget data "models" = VArr (m :: rest) ->
     after (loadModels net st)
       = setSelectedModel m (setEvModels (VArr (m :: rest)) st) /\
     completed (loadModels net st) = Normal tt) /\
  (truthy (optget data "models") = false \/ optget data "models" = VArr [] ->
     after (loadModels net st) = setEvModels (VArr []) st /\
     completed (loadModels net st) = Normal tt).
Proof.
  intros Hnet Hok Hj Hn.
  pose proof (getEvModels_success net res data Hnet Hok Hj Hn) as Hg.
  split.
  - intros m rest Hm. unfold loadModels. rewrite Hg, Hm. simpl. split; reflexivity.
  - intros H. unfold loadModels. rewrite Hg.
    assert (Hv : js_or (optget data "models") (VArr []) = VArr []).
    { destruct H as [H|H]; [unfold js_or; rewrite H; reflexivity | rewrite H; reflexivity]. }
    rewrite Hv. simpl. split; reflexivity.
Qed.

Lemma mount_success_selects_first_witness :
  after (loadModels
           (fun _ => FetchResolved
              {| ok := true; status := 200; text := inr "";
                 json := inr (VObj [("models",
                                     VArr [VObj [("ev_model_id", num_of_nat 7)];
                                           VObj [("ev_model_id", num_of_nat 8)]])]) |})
           initial)
    = setSelectedModel (VObj [("ev_model_id", num_of_nat 7)])
        (setEvModels (VArr [VObj [("ev_model_id", num_of_nat 7)];
                            VObj [("ev_model_id", num_of_nat 8)]]) initial).
Proof.
  exact (proj1 (proj1 (mount_success_selects_first
    (fun _ => FetchResolved
       {| ok := true; status := 200; text := inr "";
          json := inr (VObj [("models",
                              VArr [VObj [("ev_model_id", num_of_nat 7)];
                                    VObj [("ev_model_id", num_of_nat 8)]])]) |})
    initial _ _ eq_refl eq_refl eq_refl eq_refl) _ _ eq_refl)).
Defined.


(** handleGetRoute *)

(** X5 (the loading flag is always reset): after [handleGetRoute],
    [loading] is false whenever a request was sent, whatever the network
    answered (also when reading [result.error] throws), and unchanged when
    the request was refused for a missing field. *)
Theorem route_request_resets_loading (net : network) (st : AppState) :
  loading (after (handleGetRoute net st))
    = if fields_missing st then loading st else false.
Proof.
  destruct (fields_missing st) eqn:Hm.
  - rewrite handleGetRoute_missing by exact Hm. reflexivity.
  - destruct (handleGetRoute_sends net st Hm) as [v [tr [_ [_ H]]]]. cbv zeta in H.
    destruct (get v "error") as [err|e|]; [| |contradiction].
    + destruct H as [_ ->]. destruct (truthy err); reflexivity.
    + destruct H as [_ ->]. reflexivity.
Qed.


Lemma handleGetRoute_reply (net : network) (st : AppState) (v : value) :
  fields_missing st = false ->
  fst (getPrediction net (fromLocation st) (toLocation st)
         (optget (selectedModel st) "ev_model_id") (num_of_Z (batteryPercent st)))
    = Normal v ->
  let st2 := setLoading false (setError VNull (setLoading true st)) in
  match get v "error" with
  | Normal err =>
      completed (handleGetRoute net st) = Normal tt /\
      after (handleGetRoute net st) =
        if truthy err then setError err st2 else setRouteResult v st2
  | Throw e =>
      completed (handleGetRoute net st) = Throw e /\
      after (handleGetRoute net st) = st2
  | Unmodelled => False
  end.
Proof.
  intros Hm Hv.
  destruct (handleGetRoute_sends net st Hm) as [v' [tr [Hp [_ H]]]].
  rewrite Hp in Hv. simpl in Hv. injection Hv as ->. exact H.
Qed.

(** X6 (a failed request keeps the previous result): when the fields are
    filled in and the prediction call fails (rejected fetch, status not ok,
    unreadable or unparsable body), [handleGetRoute] completes normally, puts
    a non-empty string into [error], leaves [routeResult] as it was and resets
    [loading]. *)
Theorem failed_route_keeps_previous_result (net : network) (st : AppState) :
  fields_missing st = false ->
  prediction_failure (net (request_of st)) = true ->
  exists msg,
    msg <> "" /\
    error (after (handleGetRoute net st)) = VStr msg /\
    routeResult (after (handleGetRoute net st)) = routeResult st /\
    loading (after (handleGetRoute net st)) = false /\
    completed (handleGetRoute net st) = Normal tt.
Proof.
  intros Hm Hf.
  destruct (getPrediction_failure net _ _ _ _ Hf) as [msg [Hv Hmsg]].
  pose proof (handleGetRoute_reply net st _ Hm Hv) as H. cbv zeta in H. simpl in H.
  rewrite (nonempty_eqb msg Hmsg) in H. simpl in H. destruct H as [Hc Ha].
  exists msg. rewrite Ha, Hc. repeat split; try reflexivity. exact Hmsg.
Qed.

Lemma failed_route_keeps_previous_result_witness :
  exists msg, msg <> "" /\
    error (after (handleGetRoute (fun _ => FetchRejected)
             (setSelectedModel (VObj [("ev_model_id", num_of_nat 1)])
                (setToLocation (VStr "Bengaluru")
                   (setFromLocation (VStr "Hyderabad") initial))))) = VStr msg.
Proof.
  destruct (failed_route_keeps_previous_result (fun _ => FetchRejected)
              (setSelectedModel (VObj [("ev_model_id", num_of_nat 1)])
                 (setToLocation (VStr "Bengaluru")
                    (setFromLocation (VStr "Hyderabad") initial)))
              eq_refl eq_refl) as [msg [H1 [H2 _]]].
  exists msg. split; assumption.
Defined.


(** X7 (an error reported in the reply is shown): when the reply parses
    and carries a truthy [error] field, [handleGetRoute] puts that value into
    [error] and leaves [routeResult] as it was. *)
Theorem backend_error_field_is_shown (net : network) (st : AppState)
    (res : response) (reply : value) :
  fields_missing st = false ->
  net (request_of st) = FetchResolved res ->
  ok res = true -> json res = inr reply ->
  truthy (optget reply "error") = true ->
  error (after (handleGetRoute net st)) = optget reply "error" /\
  routeResult (after (handleGetRoute net st)) = routeResult st /\
  completed (handleGetRoute net st) = Normal tt.
Proof.
  intros Hm Hnet Hok Hj Herr.
  pose proof (getPrediction_success net _ _ _ _ res reply Hnet Hok Hj) as Hp.
  pose proof (handleGetRoute_reply net st reply Hm ltac:(rewrite Hp; reflexivity)) as H.
  cbv zeta in H.
  assert (Hn : nullish reply = false) by (destruct reply; try discriminate; reflexivity).
  rewrite (get_optget _ _ Hn), Herr in H. destruct H as [Hc Ha].
  rewrite Ha, Hc. repeat split; reflexivity.
Qed.

Lemma backend_error_field_is_shown_witness :
  error (after (handleGetRoute
           (fun _ => FetchResolved
              {| ok := true; status := 200; text := inr "";
                 json := inr (VObj [("error", VStr "No route found")]) |})
           (setSelectedModel (VObj [("ev_model_id", num_of_nat 1)])
              (setToLocation (VStr "Bengaluru")
                 (setFromLocation (VStr "Hyderabad") initial)))))
    = VStr "No route found".
Proof.
  exact (proj1 (backend_error_field_is_shown
    (fun _ => FetchResolved
       {| ok := true; status := 200; text := inr "";
          json := inr (VObj [("error", VStr "No route found")]) |})
    (setSelectedModel (VObj [("ev_model_id", num_of_nat 1)])
       (setToLocation (VStr "Bengaluru")
          (setFromLocation (VStr "Hyderabad") initial)))
    _ _ eq_refl eq_refl eq_refl eq_refl eq_refl)).
Defined.


(** X8 (a successful request replaces the result): when the reply parses
    to a value other than [null] without a truthy [error] field,
    [handleGetRoute] stores it in [routeResult], clears [error], resets
    [loading], leaves [previewRoute] alone and has made exactly the one
    request. *)
Theorem successful_route_replaces_result (net : network) (st : AppState)
    (res : response) (reply : value) :
  fields_missing st = false ->
  net (request_of st) = FetchResolved res ->
  ok res = true -> json res = inr reply ->
  nullish reply = false ->
  truthy (optget reply "error") = false ->
  routeResult (after (handleGetRoute net st)) = reply /\
  error (after (handleGetRoute net st)) = VNull /\
  loading (after (handleGetRoute net st)) = false /\
  previewRoute (after (handleGetRoute net st)) = previewRoute st /\
  completed (handleGetRoute net st) = Normal tt /\
  events (handleGetRoute net st) = [EFetch (request_of st)].
Proof.
  intros Hm Hnet Hok Hj Hn Herr.
  pose proof (getPrediction_success net _ _ _ _ res reply Hnet Hok Hj) as Hp.
  pose proof (handleGetRoute_reply net st reply Hm ltac:(rewrite Hp; reflexivity)) as H.
  cbv zeta in H. rewrite (get_optget _ _ Hn), Herr in H. destruct H as [Hc Ha].
  destruct (handleGetRoute_sends net st Hm) as [v' [tr [Hp' [He _]]]].
  rewrite Hp in Hp'. injection Hp' as <- <-.
  rewrite Ha, Hc, He. repeat split; reflexivity.
Qed.

Lemma successful_route_replaces_result_witness :
  routeResult (after (handleGetRoute
           (fun _ => FetchResolved
              {| ok := true; status := 200; text := inr "";
                 json := inr (VObj [("total_distance_km", num_of_nat 570)]) |})
           (setSelectedModel (VObj [("ev_model_id", num_of_nat 1)])
              (setToLocation (VStr "Bengaluru")
                 (setFromLocation (VStr "Hyderabad") initial)))))
    = VObj [("total_distance_km", num_of_nat 570)].
Proof.
  exact (proj1 (successful_route_replaces_result
    (fun _ => FetchResolved
       {| ok := true; status := 200; text := inr "";
          json := inr (VObj [("total_distance_km", num_of_nat 570)]) |})
    (setSelectedModel (VObj [("ev_model_id", num_of_nat 1)])
       (setToLocation (VStr "Bengaluru")
          (setFromLocation (VStr "Hyderabad") initial)))
    _ _ eq_refl eq_refl eq_refl eq_refl eq_refl eq_refl)).
Defined.


(** X9 (a [null] reply fails without a message): when the prediction
    endpoint answers ok with the body [null], reading [result.error] throws a
    TypeError out of [handleGetRoute]: [loading] has been reset, but [error]
    stays [null] and [routeResult] is unchanged, so nothing tells the user. *)
Theorem null_reply_fails_silently (net : network) (st : AppState) (res : response) :
  fields_missing st = false ->
  net (request_of st) = FetchResolved res ->
  ok res = true -> json res = inr VNull ->
  completed (handleGetRoute net st) = Throw TypeError /\
  error (after (handleGetRoute net st)) = VNull /\
  routeResult (after (handleGetRoute net st)) = routeResult st /\
  loading (after (handleGetRoute net st)) = false.
Proof.
  intros Hm Hnet Hok Hj.
  pose proof (getPrediction_success net _ _ _ _ res VNull Hnet Hok Hj) as Hp.
  pose proof (handleGetRoute_reply net st VNull Hm ltac:(rewrite Hp; reflexivity)) as H.
  cbv zeta in H. simpl in H. destruct H as [Hc Ha].
  rewrite Ha, Hc. repeat split; reflexivity.
Qed.

Lemma null_reply_fails_silently_witness :
  completed (handleGetRoute
     (fun _ => FetchResolved
        {| ok := true; status := 200; text := inr ""; json := inr VNull |})
     (setSelectedModel (VObj [("ev_model_id", num_of_nat 1)])
        (setToLocation (VStr "Bengaluru")
           (setFromLocation (VStr "Hyderabad") initial))))
    = Throw TypeError.
Proof.
  exact (proj1 (null_reply_fails_silently
    (fun _ => FetchResolved
       {| ok := true; status := 200; text := inr ""; json := inr VNull |})
    (setSelectedModel (VObj [("ev_model_id", num_of_nat 1)])
       (setToLocation (VStr "Bengaluru")
          (setFromLocation (VStr "Hyderabad") initial)))
    _ eq_refl eq_refl eq_refl eq_refl)).
Defined.




(** ** The preview route follows the two coordinate cells *)

Lemma preview_cells_handleGetRoute (net : network) (st : AppState) :
  preview_cells (after (handleGetRoute net st)) = preview_cells st.
Proof.
  destruct (fields_missing st) eqn:Hm.
  - rewrite handleGetRoute_missing by exact Hm. reflexivity.
  - destruct (handleGetRoute_sends net st Hm) as [v [tr [_ [_ H]]]]. cbv zeta in H.
    destruct (get v "error") as [err|e|]; [| |contradiction].
    + destruct H as [_ ->]. destruct (truthy err); reflexivity.
    + destruct H as [_ ->]. reflexivity.
Qed.

Lemma preview_cells_loadModels (net : network) (st : AppState) :
  preview_cells (after (loadModels net st)) = preview_cells st.
Proof.
  unfold loadModels.
  destruct (getEvModels net) as [[data|e|] tr]; try reflexivity.
  destruct (get data "error") as [err|e|]; try reflexivity.
  destruct (truthy err); [reflexivity|].
  destruct (cbind _ _) as [[|]|e|]; try reflexivity.
  destruct (index data 0); reflexivity.
Qed.

Lemma preview_cells_onModelChange (id : number) (st : AppState) :
  preview_cells (after (onModelChange id st)) = preview_cells st.
Proof.
  unfold onModelChange.
  destruct (evModels st); try reflexivity.
  destruct (find_model id items); reflexivity.
Qed.

Lemma previewEffect_sets (st : AppState) :
  previewRoute (previewEffect st) = preview_of (fromCoords st) (toCoords st) /\
  fromCoords (previewEffect st) = fromCoords st /\
  toCoords (previewEffect st) = toCoords st.
Proof.
  unfold previewEffect, preview_of.
  destruct (truthy (fromCoords st) && truthy (toCoords st)); repeat split.
Qed.

Lemma reachable_preview (net : network) (st : AppState) :
  reachable net st ->
  previewRoute st = preview_of (fromCoords st) (toCoords st).
Proof.
  induction 1 as [|ev st Hst IH]; [reflexivity|].
  assert (Hkeep : forall st', preview_cells st' = preview_cells st ->
            previewRoute st' = preview_of (fromCoords st') (toCoords st')).
  { intros st' H. unfold preview_cells in H. injection H as -> -> ->. exact IH. }
  assert (Hset : forall s, previewRoute (previewEffect s)
             = preview_of (fromCoords (previewEffect s)) (toCoords (previewEffect s))).
  { intros s. destruct (previewEffect_sets s) as [-> [-> ->]]. reflexivity. }
  destruct ev; cbn [step after finish].
  - apply Hkeep, preview_cells_loadModels.
  - apply Hkeep. reflexivity.
  - apply Hkeep. reflexivity.
  - apply Hkeep, preview_cells_onModelChange.
  - apply Hkeep. reflexivity.
  - apply Hkeep. reflexivity.
  - apply Hkeep. reflexivity.
  - apply Hset.
  - apply Hset.
  - apply Hkeep, preview_cells_handleGetRoute.
  - apply Hset.
  - apply Hkeep. reflexivity.
Qed.

(** X10 (the preview follows the two selected places): in every state the
    user interface can reach, [previewRoute] is exactly what the preview
    effect makes of the current [fromCoords] and [toCoords]; in particular it
    is [null] exactly when one of the two places is not selected. *)
Theorem preview_route_follows_selected_places (net : network) (st : AppState) :
  reachable net st ->
  previewRoute st = preview_of (fromCoords st) (toCoords st) /\
  (previewRoute st = VNull <->
     truthy (fromCoords st) = false \/ truthy (toCoords st) = false).
Proof.
  intros Hr. pose proof (reachable_preview net st Hr) as H.
  split; [exact H|]. rewrite H. unfold preview_of.
  destruct (truthy (fromCoords st)), (truthy (toCoords st)); simpl;
    split; auto; try discriminate; intros [?|?]; discriminate.
Qed.

Lemma preview_route_follows_selected_places_witness :
  previewRoute (after (step (fun _ => FetchRejected)
                         (SelectFrom (Fin (inject_Z 17)) (Fin (inject_Z 78))) initial))
    = VNull.
Proof.
  exact (proj1 (preview_route_follows_selected_places (fun _ => FetchRejected) _
    (reach_step _ (SelectFrom (Fin (inject_Z 17)) (Fin (inject_Z 78))) _
       (reach_initial _)))).
Defined.


Lemma handleGetRoute_halves (net : network) (st : AppState) :
  handleGetRoute net st = getRouteAtOnce net st.
Proof.
  unfold handleGetRoute, getRouteAtOnce, startGetRoute, routeReplyLands.
  destruct (fields_missing st); [reflexivity|].
  destruct (get (selectedModel st) "ev_model_id") as [id|e|]; try reflexivity.
  destruct (getPrediction net _ _ id _) as [[v|e|] tr]; try reflexivity.
  destruct (get v "error") as [err|e|]; try reflexivity.
  destruct (truthy err); reflexivity.
Qed.

(** X11 (get route after clear is refused, a request in flight is not
    cancelled): after a click on clear, a click on get route sends no
    request: while a request is in flight the button is disabled and nothing
    changes, otherwise the guard refuses with the fill-all-fields message.
    Right after it the result is [null] and the battery percent and the
    selected model are those from before the clear.  Clear cancels nothing:
    when the reply of a request in flight lands, it becomes the result on the
    cleared form. *)
Theorem clear_then_get_route_is_rejected (net : network) (st : AppState) :
  let cleared := after (step net ClickClear st) in
  snd (clickGetRoute cleared) = Normal None /\
  fst (clickGetRoute cleared)
    = (if loading st then cleared
       else setError (VStr "Please fill all fields") cleared) /\
  routeResult (fst (clickGetRoute cleared)) = VNull /\
  batteryPercent (fst (clickGetRoute cleared)) = batteryPercent st /\
  selectedModel (fst (clickGetRoute cleared)) = selectedModel st /\
  (loading st = false ->
     step net ClickGetRoute cleared
       = finish (setError (VStr "Please fill all fields") cleared)) /\
  (forall reply,
     nullish reply = false ->
     truthy (optget reply "error") = false ->
     routeReplyLands reply (fst (clickGetRoute cleared))
       = (setRouteResult reply (setLoading false (fst (clickGetRoute cleared))),
          Normal tt) /\
     fromLocation (fst (routeReplyLands reply (fst (clickGetRoute cleared)))) = VStr "" /\
     routeResult (fst (routeReplyLands reply (fst (clickGetRoute cleared)))) = reply).
Proof.
  cbv zeta. cbn [step after finish].
  assert (Hm : fields_missing (previewEffect (handleClear st)) = true) by reflexivity.
  assert (Hl : loading (previewEffect (handleClear st)) = loading st) by reflexivity.
  assert (Hc : clickGetRoute (previewEffect (handleClear st))
               = (if loading st then previewEffect (handleClear st)
                  else setError (VStr "Please fill all fields")
                         (previewEffect (handleClear st)), Normal None)).
  { unfold clickGetRoute, startGetRoute. rewrite Hl, Hm.
    destruct (loading st); reflexivity. }
  rewrite Hc. cbn [fst snd].
  split; [reflexivity|]. split; [reflexivity|].
  split; [destruct (loading st); reflexivity|].
  split; [destruct (loading st); reflexivity|].
  split; [destruct (loading st); reflexivity|].
  split.
  - intros _. apply handleGetRoute_missing. exact Hm.
  - intros reply Hn Herr. unfold routeReplyLands.
    rewrite (get_optget reply _ Hn), Herr.
    split; [reflexivity|]. cbn [fst].
    split; destruct (loading st); reflexivity.
Qed.

(** ** Choosing a model *)

Lemma find_model_spec (id : number) (models : list value) :
  Forall (fun m => nullish m = false) models ->
  (find_model id models = Normal VUndefined /\
   Forall (fun m => matches id m = false) models) \/
  (exists before m rest,
     models = before ++ m :: rest /\
     Forall (fun x => matches id x = false) before /\
     matches id m = true /\
     find_model id models = Normal m).
Proof.
  induction 1 as [|m models Hm Hall IH].
  - left. split; [reflexivity | constructor].
  - simpl. rewrite (get_optget m _ Hm). simpl. fold (matches id m).
    destruct (matches id m) eqn:E.
    + right. exists [], m, models. repeat split; [constructor | exact E].
    + destruct IH as [[Hf Hno]|[before [m' [rest [-> [Hb [Hm' Hf]]]]]]].
      * left. split; [exact Hf | constructor; assumption].
      * right. exists (m :: before), m', rest.
        repeat split; try assumption. constructor; assumption.
Qed.

Lemma matches_NaN (model : value) : matches NaN model = false.
Proof.
  unfold matches, strict_eq_num.
  destruct (optget model "ev_model_id") as [| | |[| | |]| | |]; reflexivity.
Qed.

(** X12 (choosing a model takes the first match): with [evModels] an array
    of non-null models, the select's handler completes and either selects the
    first model whose [ev_model_id] is strictly equal to the parsed id, or,
    when there is none, selects [undefined], after which get route sends no
    request; an id that parses to NaN never matches. *)
Theorem model_choice_takes_first_match (id : number) (st : AppState) (models : list value) :
  evModels st = VArr models ->
  Forall (fun m => nullish m = false) models ->
  completed (onModelChange id st) = Normal tt /\
  ((selectedModel (after (onModelChange id st)) = VUndefined /\
    Forall (fun m => matches id m = false) models /\
    forall net, events (handleGetRoute net (after (onModelChange id st))) = []) \/
   (exists before m rest,
      models = before ++ m :: rest /\
      Forall (fun x => matches id x = false) before /\
      matches id m = true /\
      selectedModel (after (onModelChange id st)) = m)) /\
  (id = NaN -> selectedModel (after (onModelChange id st)) = VUndefined).
Proof.
  intros Hev Hall. unfold onModelChange. rewrite Hev.
  destruct (find_model_spec id models Hall) as [[Hf Hno]|[before [m [rest [Hsplit [Hb [Hm Hf]]]]]]].
  - rewrite Hf. simpl. split; [reflexivity|]. split.
    + left. split; [reflexivity|]. split; [exact Hno|].
      intros net. rewrite handleGetRoute_missing; [reflexivity|].
      unfold fields_missing. simpl. rewrite !orb_true_r. reflexivity.
    + intros _. reflexivity.
  - rewrite Hf. simpl. split; [reflexivity|]. split.
    + right. exists before, m, rest. repeat split; assumption.
    + intros ->. rewrite matches_NaN in Hm. discriminate.
Qed.

Lemma model_choice_takes_first_match_witness :
  selectedModel
    (after (onModelChange NaN
              (setEvModels (VArr [VObj [("ev_model_id", num_of_nat 7)];
                                  VObj [("ev_model_id", num_of_nat 8)]]) initial)))
    = VUndefined.
Proof.
  exact (proj2 (proj2 (model_choice_takes_first_match NaN
    (setEvModels (VArr [VObj [("ev_model_id", num_of_nat 7)];
                        VObj [("ev_model_id", num_of_nat 8)]]) initial)
    [VObj [("ev_model_id", num_of_nat 7)]; VObj [("ev_model_id", num_of_nat 8)]]
    eq_refl ltac:(repeat constructor))) eq_refl).
Defined.


(** ** Only the first ten stations matter *)

(** X13 (only the first ten stations are read): two results whose station
    arrays agree on their first ten elements give the same station list in
    the trip summary, whatever follows (also unusable elements). *)
Theorem station_list_reads_first_ten (result result' cs cs' : value) (items items' : list value) :
  get result "charging_suggestions" = Normal cs ->
  get cs "stations" = Normal (VArr items) ->
  get result' "charging_suggestions" = Normal cs' ->
  get cs' "stations" = Normal (VArr items') ->
  take 10 items = take 10 items' ->
  stationList result = stationList result'.
Proof.
  intros Hcs Hst Hcs' Hst' Htake.
  rewrite (stationList_array result cs items Hcs Hst).
  rewrite (stationList_array result' cs' items' Hcs' Hst').
  unfold slice0. rewrite Htake.
  assert (Hlen : Nat.eqb (length items) 0 = Nat.eqb (length items') 0).
  { destruct items, items'; try reflexivity; discriminate. }
  rewrite Hlen. reflexivity.
Qed.

Lemma station_list_reads_first_ten_witness :
  stationList
    (VObj [("charging_suggestions",
            VObj [("stations",
                   VArr (List.repeat (VObj [("name", VStr "A")]) 10 ++ [VNull]))])])
  = stationList
    (VObj [("charging_suggestions",
            VObj [("stations",
                   VArr (List.repeat (VObj [("name", VStr "A")]) 10
                           ++ [VObj [("name", VStr "B")]; VNull]))])]).
Proof.
  apply station_list_reads_first_ten
    with (cs := VObj [("stations",
                       VArr (List.repeat (VObj [("name", VStr "A")]) 10 ++ [VNull]))])
         (cs' := VObj [("stations",
                        VArr (List.repeat (VObj [("name", VStr "A")]) 10
                                ++ [VObj [("name", VStr "B")]; VNull]))])
         (items := List.repeat (VObj [("name", VStr "A")]) 10 ++ [VNull])
         (items' := List.repeat (VObj [("name", VStr "A")]) 10
                      ++ [VObj [("name", VStr "B")]; VNull]);
    reflexivity.
Defined.


Lemma stationCard_null (s : value) : nullish s = true -> stationCard s = Throw TypeError.
Proof. destruct s; try discriminate; reflexivity. Qed.

Lemma stationCard_cases (s : value) :
  (exists c, stationCard s = Normal c) \/ stationCard s = Throw TypeError.
Proof.
  destruct (nullish s) eqn:E.
  - right. apply stationCard_null. exact E.
  - left. apply stationCard_normal. exact E.
Qed.

Lemma map_stationCard_null (l : list value) :
  Exists (fun s => nullish s = true) l ->
  map_completion stationCard l = Throw TypeError.
Proof.
  induction 1 as [s l Hs|s l Hex IH]; simpl.
  - rewrite (stationCard_null s Hs). reflexivity.
  - destruct (stationCard_cases s) as [[c ->]| ->]; simpl; [|reflexivity].
    rewrite IH. reflexivity.
Qed.

(** X14 (a [null] station breaks the summary): when one of the first ten
    elements of the station array is [null] or [undefined], building the
    station list throws a TypeError (reading [station.name]); nothing guards
    the list as the map's markers are guarded. *)
Theorem null_station_breaks_the_summary (result cs : value) (items : list value) :
  get result "charging_suggestions" = Normal cs ->
  get cs "stations" = Normal (VArr items) ->
  Exists (fun s => nullish s = true) (take 10 items) ->
  stationList result = Throw TypeError.
Proof.
  intros Hcs Hst Hex.
  rewrite (stationList_array result cs items Hcs Hst).
  destruct items as [|s items]; [inversion Hex|]. simpl Nat.eqb. cbv iota.
  unfold slice0. rewrite (map_stationCard_null _ Hex). reflexivity.
Qed.

Lemma null_station_breaks_the_summary_witness :
  stationList
    (VObj [("charging_suggestions",
            VObj [("stations", VArr [VObj [("name", VStr "A")]; VNull])])])
  = Throw TypeError.
Proof.
  apply (null_station_breaks_the_summary _
           (VObj [("stations", VArr [VObj [("name", VStr "A")]; VNull])])
           [VObj [("name", VStr "A")]; VNull]); try reflexivity.
  apply Exists_cons_tl, Exists_cons_hd. reflexivity.
Defined.




(** ** Markers *)

Lemma stationMarker_value (s : value) :
  nullish s = false ->
  stationMarker s = Normal (if has_coordinates s then Some (markerOf s) else None).
Proof.
  intros Hs. unfold stationMarker, has_coordinates, markerOf.
  rewrite !(get_optget s _ Hs). simpl.
  destruct (truthy (optget s "lat")); simpl; [|reflexivity].
  destruct (truthy (optget s "lng")); reflexivity.
Qed.

(** X15 (a zero coordinate gets no marker): a station whose [lat] or [lng]
    is the number zero (a place on the equator or on the prime meridian) is
    skipped by the marker loop like one without coordinates: the markers are
    those of the list without it. *)
Theorem zero_coordinate_gets_no_marker (s : value) (q : Q) :
  nullish s = false ->
  (q == 0)%Q ->
  optget s "lat" = VNum (Fin q) \/ optget s "lng" = VNum (Fin q) ->
  stationMarker s = Normal None /\
  forall before rest acc,
    placeMarkers (before ++ s :: rest) acc = placeMarkers (before ++ rest) acc.
Proof.
  intros Hs Hq H.
  assert (Hz : truthy (VNum (Fin q)) = false).
  { simpl. apply Qeq_bool_iff in Hq. rewrite Hq. reflexivity. }
  assert (Hnone : stationMarker s = Normal None).
  { rewrite (stationMarker_value s Hs). unfold has_coordinates.
    destruct H as [H|H]; rewrite H, Hz; [reflexivity|].
    rewrite andb_false_r. reflexivity. }
  split; [exact Hnone|]. intros before rest acc. apply placeMarkers_skip. exact Hnone.
Qed.

Lemma zero_coordinate_gets_no_marker_witness :
  stationMarker (VObj [("lat", num_of_nat 0); ("lng", num_of_nat 77);
                       ("name", VStr "Equator Charge")])
    = Normal None.
Proof.
  exact (proj1 (zero_coordinate_gets_no_marker
    (VObj [("lat", num_of_nat 0); ("lng", num_of_nat 77);
           ("name", VStr "Equator Charge")])
    (inject_Z (Z.of_nat 0)) eq_refl (Qeq_refl _) (or_introl eq_refl))).
Defined.


Lemma placeMarkers_filter (l : list value) (acc : list Marker) :
  Forall (fun s => nullish s = false) l ->
  placeMarkers l acc = Normal (acc ++ map markerOf (List.filter has_coordinates l)).
Proof.
  intros Hall. revert acc. induction Hall as [|s l Hs Hall IH]; intros acc; simpl.
  - rewrite app_nil_r. reflexivity.
  - rewrite (stationMarker_value s Hs). simpl.
    destruct (has_coordinates s); simpl; rewrite IH; [|reflexivity].
    rewrite <- app_assoc. reflexivity.
Qed.

(** X16 (the markers are the located stations, in order): when no station
    is [null], the effect replaces the old markers by one marker per station
    with truthy [lat] and [lng], in the order of the list and with the
    station's position and name; there are never more markers than
    stations. *)
Theorem markers_are_the_located_stations_in_order
    (result : value) (items : list value) (old : list Marker)
    (dir : option ((value * value) * (value * value))) :
  Forall (fun s => nullish s = false) items ->
  truthy result = true ->
  directionsRequest result = Normal dir ->
  optget (optget result "charging_suggestions") "stations" = VArr items ->
  placeMarkers items [] = Normal (map markerOf (List.filter has_coordinates items)) /\
  updateMap true result old
    = Normal {| markers := map markerOf (List.filter has_coordinates items);
                directions := dir |} /\
  (length (map markerOf (List.filter has_coordinates items)) <= length items)%nat.
Proof.
  intros Hall Htr Hdir Hst.
  pose proof (placeMarkers_filter items [] Hall) as Hp. simpl in Hp.
  split; [exact Hp|]. split.
  - unfold updateMap. rewrite Htr, Hdir, Hst. simpl. rewrite Hp. reflexivity.
  - rewrite length_map. apply filter_length_le.
Qed.

Lemma markers_are_the_located_stations_in_order_witness :
  updateMap true
    (VObj [("charging_suggestions",
            VObj [("stations",
                   VArr [VObj [("name", VStr "A")];
                         VObj [("lat", num_of_nat 17); ("lng", num_of_nat 78);
                               ("name", VStr "B")]])])])
    []
  = Normal {| markers := [{| position_lat := num_of_nat 17;
                             position_lng := num_of_nat 78;
                             title := VStr "B" |}];
              directions := None |}.
Proof.
  exact (proj1 (proj2 (markers_are_the_located_stations_in_order
    (VObj [("charging_suggestions",
            VObj [("stations",
                   VArr [VObj [("name", VStr "A")];
                         VObj [("lat", num_of_nat 17); ("lng", num_of_nat 78);
                               ("name", VStr "B")]])])])
    [VObj [("name", VStr "A")];
     VObj [("lat", num_of_nat 17); ("lng", num_of_nat 78); ("name", VStr "B")]]
    [] None ltac:(repeat constructor) eq_refl eq_refl eq_refl))).
Defined.


(** ** Directions *)

Lemma index_last (first : value) (middle : list value) (last : value) :
  (first :: middle ++ [last]) !! (length (first :: middle ++ [last]) - 1)%nat = Some last.
Proof.
  simpl. rewrite Nat.sub_0_r. rewrite length_app. simpl.
  replace (length middle + 1)%nat with (S (length middle)) by lia.
  simpl. rewrite lookup_app_r by lia. rewrite Nat.sub_diag. reflexivity.
Qed.

Lemma directionsRequest_path (result first last : value) (middle : list value) :
  nullish result = false ->
  optget result "path" = VArr (first :: middle ++ [last]) ->
  directionsRequest result =
    (let* olat := index first 0 in
     let* olng := index first 1 in
     let* dlat := index last 0 in
     let* dlng := index last 1 in
     Normal (Some ((olat, olng), (dlat, dlng)))).
Proof.
  intros Hn Hp. unfold directionsRequest.
  rewrite (get_optget _ _ Hn), Hp. cbn [cbind].
  assert (Hlen : (2 <=? length (first :: middle ++ [last]))%nat = true).
  { apply Nat.leb_le. simpl. rewrite length_app. simpl. lia. }
  rewrite Hlen.
  unfold index at 1 3 5 7.
  rewrite (index_last first middle last).
  change ((first :: middle ++ [last]) !! 0%nat) with (Some first).
  cbn [from_option cbind id].
  destruct (index first 0) as [olat| |]; cbn [cbind]; reflexivity.
Qed.

(** X17 (directions use only the end points): for a path of at least two
    points, the directions request goes from the first point to the last one
    and does not depend on the points in between. *)
Theorem directions_use_only_the_endpoints
    (result first last a b c d : value) (middle : list value) :
  nullish result = false ->
  optget result "path" = VArr (first :: middle ++ [last]) ->
  index first 0 = Normal a -> index first 1 = Normal b ->
  index last 0 = Normal c -> index last 1 = Normal d ->
  directionsRequest result = Normal (Some ((a, b), (c, d))).
Proof.
  intros Hn Hp Ha Hb Hc Hd.
  rewrite (directionsRequest_path result first last middle Hn Hp).
  rewrite Ha, Hb, Hc, Hd. reflexivity.
Qed.

Lemma directions_use_only_the_endpoints_witness :
  directionsRequest
    (VObj [("path", VArr [VArr [num_of_nat 1; num_of_nat 2];
                          VArr [num_of_nat 3; num_of_nat 4];
                          VArr [num_of_nat 5; num_of_nat 6]])])
  = Normal (Some ((num_of_nat 1, num_of_nat 2), (num_of_nat 5, num_of_nat 6))).
Proof.
  exact (directions_use_only_the_endpoints
    (VObj [("path", VArr [VArr [num_of_nat 1; num_of_nat 2];
                          VArr [num_of_nat 3; num_of_nat 4];
                          VArr [num_of_nat 5; num_of_nat 6]])])
    (VArr [num_of_nat 1; num_of_nat 2]) (VArr [num_of_nat 5; num_of_nat 6])
    _ _ _ _ [VArr [num_of_nat 3; num_of_nat 4]]
    eq_refl eq_refl eq_refl eq_refl eq_refl eq_refl).
Defined.


(** X18 (a short path draws the stations only): when [result.path] is not
    an array or has fewer than two points, no directions are requested, and
    the stations still get their markers. *)
Theorem short_path_draws_stations_only (result : value) (items : list value) (old : list Marker) :
  truthy result = true ->
  (match optget result "path" with
   | VArr points => (length points < 2)%nat
   | _ => True
   end) ->
  optget (optget result "charging_suggestions") "stations" = VArr items ->
  Forall (fun s => nullish s = false) items ->
  directionsRequest result = Normal None /\
  updateMap true result old
    = Normal {| markers := map markerOf (List.filter has_coordinates items);
                directions := None |}.
Proof.
  intros Htr Hpath Hst Hall.
  pose proof (truthy_not_nullish _ Htr) as Hn.
  assert (Hdir : directionsRequest result = Normal None).
  { unfold directionsRequest. rewrite (get_optget _ _ Hn). cbn [cbind].
    destruct (optget result "path"); try reflexivity.
    replace (2 <=? length items0)%nat with false; [reflexivity|].
    symmetry. apply Nat.leb_gt. exact Hpath. }
  split; [exact Hdir|].
  unfold updateMap. rewrite Htr, Hdir, Hst. simpl.
  pose proof (placeMarkers_filter items [] Hall) as Hp. simpl in Hp. rewrite Hp. reflexivity.
Qed.

Lemma short_path_draws_stations_only_witness :
  updateMap true
    (VObj [("path", VArr [VArr [num_of_nat 1; num_of_nat 2]]);
           ("charging_suggestions",
            VObj [("stations",
                   VArr [VObj [("lat", num_of_nat 17); ("lng", num_of_nat 78);
                               ("name", VStr "B")]])])])
    []
  = Normal {| markers := [{| position_lat := num_of_nat 17;
                             position_lng := num_of_nat 78;
                             title := VStr "B" |}];
              directions := None |}.
Proof.
  apply (short_path_draws_stations_only
    (VObj [("path", VArr [VArr [num_of_nat 1; num_of_nat 2]]);
           ("charging_suggestions",
            VObj [("stations",
                   VArr [VObj [("lat", num_of_nat 17); ("lng", num_of_nat 78);
                               ("name", VStr "B")]])])])
    [VObj [("lat", num_of_nat 17); ("lng", num_of_nat 78); ("name", VStr "B")]]
    []).
  - reflexivity.
  - simpl. lia.
  - reflexivity.
  - repeat constructor.
Defined.


Lemma index_cases (v : value) (i : nat) :
  index v i = Throw TypeError \/ exists x, index v i = Normal x.
Proof. destruct v; simpl; eauto. Qed.

(** X19 (a [null] end point stops the effect): when the first or the last
    point of a path of at least two points is [null] or [undefined], reading
    its coordinates throws a TypeError out of the effect, before any station
    marker is placed. *)
Theorem null_endpoint_stops_the_effect
    (result first last : value) (middle : list value) (old : list Marker) :
  truthy result = true ->
  optget result "path" = VArr (first :: middle ++ [last]) ->
  nullish first = true \/ nullish last = true ->
  directionsRequest result = Throw TypeError /\
  updateMap true result old = Throw TypeError.
Proof.
  intros Htr Hp Hnull.
  pose proof (truthy_not_nullish _ Htr) as Hn.
  assert (Hdir : directionsRequest result = Throw TypeError).
  { rewrite (directionsRequest_path result first last middle Hn Hp).
    destruct Hnull as [H|H].
    - destruct first; try discriminate; reflexivity.
    - assert (Hl : index last 0 = Throw TypeError)
        by (destruct last; try discriminate; reflexivity).
      rewrite Hl.
      destruct (index_cases first 0) as [->|[x ->]]; cbn [cbind]; [reflexivity|].
      destruct (index_cases first 1) as [->|[y ->]]; cbn [cbind]; reflexivity. }
  split; [exact Hdir|]. unfold updateMap. rewrite Htr, Hdir. reflexivity.
Qed.

Lemma null_endpoint_stops_the_effect_witness :
  updateMap true
    (VObj [("path", VArr [VArr [num_of_nat 1; num_of_nat 2]; VNull])]) []
  = Throw TypeError.
Proof.
  exact (proj2 (null_endpoint_stops_the_effect
    (VObj [("path", VArr [VArr [num_of_nat 1; num_of_nat 2]; VNull])])
    (VArr [num_of_nat 1; num_of_nat 2]) VNull [] []
    eq_refl eq_refl (or_intror eq_refl))).
Defined.


(** ** App's preview on the map *)

Lemma previewEffect_routeResult (st : AppState) :
  routeResult (previewEffect st) = routeResult st.
Proof. unfold previewEffect. destruct (_ && _); reflexivity. Qed.

(** X20 (selecting both places asks for directions between them): while
    there is no route result, after a place is selected for the source and
    one for the destination the [result] that [App] hands to [Map] is the
    two-point preview path, and the map's effect places no marker and
    requests directions from the first place to the second. *)
Theorem preview_route_on_the_map (st : AppState) (lat1 lng1 lat2 lng2 : number)
    (old : list Marker) :
  truthy (routeResult st) = false ->
  let st' := previewEffect (setToCoords (coords lat2 lng2)
               (previewEffect (setFromCoords (coords lat1 lng1) st))) in
  exists view,
    render st' = Normal view /\
    map_result view = VObj [("path", VArr [VArr [VNum lat1; VNum lng1];
                                           VArr [VNum lat2; VNum lng2]])] /\
    updateMap true (map_result view) old
      = Normal {| markers := [];
                  directions := Some ((VNum lat1, VNum lng1), (VNum lat2, VNum lng2)) |}.
Proof.
  intros Hr. cbv zeta.
  set (st' := previewEffect (setToCoords (coords lat2 lng2)
                 (previewEffect (setFromCoords (coords lat1 lng1) st)))).
  assert (H : previewRoute st'
              = VObj [("path", VArr [VArr [VNum lat1; VNum lng1];
                                     VArr [VNum lat2; VNum lng2]])]).
  { unfold st'.
    destruct (previewEffect_sets (setToCoords (coords lat2 lng2)
                (previewEffect (setFromCoords (coords lat1 lng1) st)))) as [-> _].
    cbn [fromCoords toCoords setToCoords].
    destruct (previewEffect_sets (setFromCoords (coords lat1 lng1) st)) as [_ [-> _]].
    reflexivity. }
  assert (Hrr : routeResult st' = routeResult st).
  { unfold st'. rewrite previewEffect_routeResult. cbn [routeResult setToCoords].
    rewrite previewEffect_routeResult. reflexivity. }
  unfold render. rewrite Hrr, Hr. eexists. split; [reflexivity|].
  cbn [map_result]. unfold js_or. rewrite Hr, H. split; reflexivity.
Qed.

Lemma preview_route_on_the_map_witness :
  exists view,
    render (previewEffect (setToCoords (coords (Fin (inject_Z 12)) (Fin (inject_Z 77)))
              (previewEffect (setFromCoords (coords (Fin (inject_Z 17)) (Fin (inject_Z 78)))
                 initial)))) = Normal view /\
    updateMap true (map_result view) []
      = Normal {| markers := [];
                  directions := Some ((VNum (Fin (inject_Z 17)), VNum (Fin (inject_Z 78))),
                                      (VNum (Fin (inject_Z 12)), VNum (Fin (inject_Z 77)))) |}.
Proof.
  destruct (preview_route_on_the_map initial
              (Fin (inject_Z 17)) (Fin (inject_Z 78))
              (Fin (inject_Z 12)) (Fin (inject_Z 77)) [] eq_refl)
    as [view [H1 [_ H3]]].
  exists view. split; assumption.
Defined.




(** ** The maps script is injected at most once *)

Lemma script_url_matches (apiKey : string) :
  contains "maps.googleapis.com" (script_url apiKey) = true.
Proof. reflexivity. Qed.

Lemma find_app_new {A} (P : A -> bool) (l : list A) (x : A) :
  List.find P l = None -> P x = true -> List.find P (l ++ [x]) = Some x.
Proof.
  induction l as [|y l IH]; simpl; intros Hnone Hx.
  - rewrite Hx. reflexivity.
  - destruct (P y); [discriminate|]. apply IH; assumption.
Qed.

Lemma load_leaves_a_script (apiKey : string) (p : Page) :
  maps_available p = false ->
  exists src, existingScript (fst (loadGoogleMapsScript apiKey p)) = Some src.
Proof.
  intros Hm. unfold loadGoogleMapsScript, isGoogleMapsLoaded. rewrite Hm.
  destruct (existingScript p) as [src|] eqn:E; simpl.
  - exists src. exact E.
  - exists (script_url apiKey). unfold existingScript. simpl.
    apply find_app_new; [exact E | apply script_url_matches].
Qed.

Lemma load_with_script (apiKey : string) (p : Page) (src : string) :
  existingScript p = Some src ->
  fst (loadGoogleMapsScript apiKey p) = p.
Proof.
  intros E. unfold loadGoogleMapsScript.
  destruct (isGoogleMapsLoaded p); [reflexivity|]. rewrite E. reflexivity.
Qed.

(** X21 (the maps script is injected at most once): a call of the loader
    adds at most one script element, and on any page with the script elements
    it leaves behind, a further call (with whatever key) changes nothing on
    the page and never waits on a new script of its own. *)
Theorem maps_script_injected_at_most_once (apiKey apiKey' : string) (p p' : Page) :
  maps_available p = false ->
  script_sources p' = script_sources (fst (loadGoogleMapsScript apiKey p)) ->
  (length (script_sources (fst (loadGoogleMapsScript apiKey p)))
     <= length (script_sources p) + 1)%nat /\
  fst (loadGoogleMapsScript apiKey' p') = p' /\
  snd (loadGoogleMapsScript apiKey' p') <> AwaitsCallback (script_url apiKey').
Proof.
  intros Hm Hsame.
  destruct (load_leaves_a_script apiKey p Hm) as [src Hsrc].
  assert (Hsrc' : existingScript p' = Some src).
  { unfold existingScript in *. rewrite Hsame. exact Hsrc. }
  split; [|split].
  - unfold loadGoogleMapsScript. destruct (isGoogleMapsLoaded p); simpl; [lia|].
    destruct (existingScript p); simpl; [lia|]. rewrite length_app. simpl. lia.
  - exact (load_with_script apiKey' p' src Hsrc').
  - unfold loadGoogleMapsScript. destruct (isGoogleMapsLoaded p'); simpl; [discriminate|].
    rewrite Hsrc'. simpl. discriminate.
Qed.

Lemma maps_script_injected_at_most_once_witness :
  fst (loadGoogleMapsScript "key-2"
         (fst (loadGoogleMapsScript "key-1"
                 {| maps_available := false; script_sources := [];
                    callback_installed := false |})))
  = fst (loadGoogleMapsScript "key-1"
           {| maps_available := false; script_sources := [];
              callback_installed := false |}).
Proof.
  exact (proj1 (proj2 (maps_script_injected_at_most_once "key-1" "key-2"
    {| maps_available := false; script_sources := []; callback_installed := false |}
    _ eq_refl eq_refl))).
Defined.


Lemma load_injects (apiKey : string) (p : Page) :
  maps_available p = false ->
  existingScript p = None ->
  loadGoogleMapsScript apiKey p =
    ({| maps_available := false;
        script_sources := script_sources p ++ [script_url apiKey];
        callback_installed := true |},
     AwaitsCallback (script_url apiKey)).
Proof.
  intros Hm Hnone. unfold loadGoogleMapsScript, isGoogleMapsLoaded.
  rewrite Hm, Hnone. reflexivity.
Qed.

(** X22 (a failed script is never loaded again): when the injected script
    fails to load, the promise is rejected and the callback removed, but the
    script element stays; a later call of the loader finds it, injects
    nothing and waits for the load event of the failed element. *)
Theorem failed_script_is_never_retried (apiKey apiKey' : string) (p : Page) :
  maps_available p = false ->
  existingScript p = None ->
  let p1 := fst (loadGoogleMapsScript apiKey p) in
  let p2 := fst (onScriptError p1) in
  snd (loadGoogleMapsScript apiKey p) = AwaitsCallback (script_url apiKey) /\
  snd (onScriptError p1) = RejectedWith "Failed to load Google Maps script" /\
  callback_installed p2 = false /\
  loadGoogleMapsScript apiKey' p2 = (p2, AwaitsLoadOf (script_url apiKey)).
Proof.
  intros Hm Hnone. cbv zeta. rewrite (load_injects apiKey p Hm Hnone). simpl.
  repeat split.
  unfold loadGoogleMapsScript, isGoogleMapsLoaded, existingScript. simpl.
  rewrite (find_app_new _ _ (script_url apiKey) Hnone (script_url_matches apiKey)).
  reflexivity.
Qed.

Lemma failed_script_is_never_retried_witness :
  snd (loadGoogleMapsScript "key-2"
         (fst (onScriptError
                 (fst (loadGoogleMapsScript "key-1"
                         {| maps_available := false; script_sources := [];
                            callback_installed := false |})))))
  = AwaitsLoadOf (script_url "key-1").
Proof.
  exact (f_equal snd (proj2 (proj2 (proj2 (failed_script_is_never_retried "key-1" "key-2"
    {| maps_available := false; script_sources := []; callback_installed := false |}
    eq_refl eq_refl))))).
Defined.


(** ** Start-up of the map *)

Lemma js_or_fallback (v : value) : truthy (js_or v (VStr "Failed to load map")) = true.
Proof. unfold js_or. destruct (truthy v) eqn:E; [exact E | reflexivity]. Qed.

(** X23 (start-up of the map always ends the loading state): while the
    component is mounted and its container present, every way the start-up
    can end (script loaded and map constructed, constructor throwing, promise
    rejected) leaves [isLoading] false; the map canvas is shown without
    overlay in the first case and the error view with a truthy message in the
    others.  After unmount the start-up changes no state at all. *)
Theorem map_start_up_ends_loading (outcome : settled) (constructed : option value)
    (containerPresent : bool) (st : MapState) :
  (isLoading (finishInit outcome true true constructed st) = false /\
   match outcome, constructed with
   | Fulfilled, None =>
       renderMap (finishInit outcome true true constructed st) = MapCanvas false /\
       mapCreated (finishInit outcome true true constructed st) = true
   | _, _ =>
       exists message,
         renderMap (finishInit outcome true true constructed st) = ErrorView message /\
         truthy message = true /\
         mapCreated (finishInit outcome true true constructed st) = mapCreated st
   end) /\
  finishInit outcome false containerPresent constructed st = st.
Proof.
  split; [split|].
  - destruct outcome, constructed; reflexivity.
  - destruct outcome as [|m]; [destruct constructed as [m|]|].
    + eexists. unfold renderMap. simpl. rewrite js_or_fallback. repeat split.
      apply js_or_fallback.
    + split; reflexivity.
    + eexists. unfold renderMap. simpl finishInit. cbn [mapError mapCreated].
      rewrite js_or_fallback. repeat split. apply js_or_fallback.
  - destruct outcome; reflexivity.
Qed.





Lemma js_lt_length (n : nat) :
  js_lt (num_of_nat n) (num_of_nat 3) = Normal (n <? 3)%nat.
Proof.
  unfold js_lt, num_of_nat. simpl. f_equal. unfold Qle_bool. simpl.
  destruct (Nat.ltb_spec n 3) as [H|H].
  - apply negb_true_iff. apply Z.leb_gt. lia.
  - apply negb_false_iff. apply Z.leb_le. lia.
Qed.

Lemma valueEffect_text (text : string) (st : PlacesState) :
  valueEffect (VStr text) st =
    Normal (if (String.length text <? 3)%nat then
              {| suggestions := VArr []; showSuggestions := showSuggestions st;
                 pending := None |}
            else
              {| suggestions := suggestions st; showSuggestions := showSuggestions st;
                 pending := Some (VStr text) |}).
Proof.
  unfold valueEffect. cbn [get String.eqb Ascii.eqb Bool.eqb cbind].
  rewrite js_lt_length. cbn [cbind].
  destruct (String.length text <? 3)%nat; reflexivity.
Qed.

Lemma timerFires_idle (enc : value -> string) (net : network) (st : PlacesState) :
  pending st = None -> timerFires enc net st = (st, []).
Proof. intros H. unfold timerFires. rewrite H. reflexivity. Qed.

Lemma timerFires_halves (enc : value -> string) (net : network) (st : PlacesState)
    (text : value) :
  pending st = Some text ->
  timerFires enc net st
    = (fst (replyLands (net (search_request enc text))
              {| suggestions := suggestions st; showSuggestions := showSuggestions st;
                 pending := None |}),
       EFetch (search_request enc text)
         :: snd (replyLands (net (search_request enc text))
                   {| suggestions := suggestions st; showSuggestions := showSuggestions st;
                      pending := None |})).
Proof.
  intros Hp. unfold timerFires, replyLands, fetch. rewrite Hp.
  destruct (net _) as [|[o s t j]]; simpl; [reflexivity|].
  destruct j; reflexivity.
Qed.

(** X24 (fewer than three characters search nothing, and discard nothing):
    for a text shorter than three code units the effect empties the
    suggestions and arms no timer, so that no request is sent for it and,
    right after the effect, no dropdown is shown.  The reply to an earlier
    search is not discarded: when it lands, it becomes the suggestions and
    the dropdown lists its places under the short text. *)
Theorem short_text_searches_nothing (enc : value -> string) (net : network)
    (text : string) (st : PlacesState) :
  (String.length text < 3)%nat ->
  exists st',
    valueEffect (VStr text) st = Normal st' /\
    suggestions st' = VArr [] /\
    showSuggestions st' = showSuggestions st /\
    pending st' = None /\
    timerFires enc net st' = (st', []) /\
    dropdown st' = Normal None /\
    (forall res data,
       json res = inr data ->
       replyLands (FetchResolved res) st'
         = ({| suggestions := data; showSuggestions := true; pending := None |}, [])) /\
    (forall res names,
       json res = inr (VArr (map (fun n => VObj [("display_name", VStr n)]) names)) ->
       names <> [] ->
       dropdown (fst (replyLands (FetchResolved res) st'))
         = Normal (Some (map VStr names))).
Proof.
  intros Hlen. rewrite valueEffect_text.
  replace (String.length text <? 3)%nat with true by (symmetry; apply Nat.ltb_lt; exact Hlen).
  eexists. split; [reflexivity|]. cbn [suggestions showSuggestions pending].
  do 4 (split; [reflexivity|]).
  split; [unfold dropdown; simpl; destruct (showSuggestions st); reflexivity|].
  assert (Hland : forall res data, json res = inr data ->
            replyLands (FetchResolved res)
              {| suggestions := VArr []; showSuggestions := showSuggestions st;
                 pending := None |}
            = ({| suggestions := data; showSuggestions := true; pending := None |}, [])).
  { intros res data Hj. unfold replyLands. simpl. rewrite Hj. reflexivity. }
  split; [exact Hland|].
  intros res names Hj Hne. rewrite (Hland res _ Hj). cbn [fst].
  unfold dropdown. cbn [showSuggestions suggestions get String.eqb Ascii.eqb Bool.eqb cbind].
  rewrite js_gt_length, length_map. cbn [cbind].
  destruct names as [|n names]; [contradiction|]. cbn [length Nat.eqb negb].
  assert (Hnames : forall l, map_completion (fun place => get place "display_name")
                     (map (fun n => VObj [("display_name", VStr n)]) l)
                   = Normal (map VStr l)).
  { induction l as [|x l IH]; [reflexivity|].
    cbn [map map_completion]. rewrite IH. reflexivity. }
  rewrite Hnames. reflexivity.
Qed.

Lemma short_text_searches_nothing_witness :
  exists st',
    valueEffect (VStr "Hy") placesInitial = Normal st' /\
    timerFires (fun _ => "Hy") (fun _ => FetchRejected) st' = (st', []).
Proof.
  destruct (short_text_searches_nothing (fun _ => "Hy") (fun _ => FetchRejected)
              "Hy" placesInitial ltac:(simpl; lia))
    as [st' [H1 [_ [_ [_ [H4 _]]]]]].
  exists st'. split; assumption.
Defined.


Lemma typeAll_last (texts : list string) (last : string) (st : PlacesState) :
  exists st',
    typeAll (texts ++ [last]) st = Normal st' /\
    pending st' = if (String.length last <? 3)%nat then None else Some (VStr last).
Proof.
  revert st. induction texts as [|t texts IH]; intros st; simpl.
  - rewrite valueEffect_text. simpl. eexists. split; [reflexivity|].
    destruct (String.length last <? 3)%nat; reflexivity.
  - rewrite valueEffect_text. simpl. apply IH.
Qed.

Lemma timerFires_fetches (enc : value -> string) (net : network) (st : PlacesState) :
  fetches (snd (timerFires enc net st))
    = match pending st with
      | Some text => [search_request enc text]
      | None => []
      end /\
  pending (fst (timerFires enc net st)) = None.
Proof.
  unfold timerFires. destruct (pending st) as [text|] eqn:E; [|split; [reflexivity|exact E]].
  unfold fetch. destruct (net _) as [|[o s t j]]; simpl; [split; reflexivity|].
  destruct j; simpl; split; reflexivity.
Qed.

(** X25 (a burst of typing searches the last text only): after any
    sequence of changes of the text with no timer firing in between, the
    timer that fires sends one request, for the last text, or none when that
    text is shorter than three code units; a second firing sends nothing. *)
Theorem burst_of_typing_searches_last_text (enc : value -> string) (net : network)
    (texts : list string) (last : string) (st : PlacesState) :
  exists st',
    typeAll (texts ++ [last]) st = Normal st' /\
    fetches (snd (timerFires enc net st'))
      = (if (String.length last <? 3)%nat then [] else [search_request enc (VStr last)]) /\
    fetches (snd (timerFires enc net (fst (timerFires enc net st')))) = [].
Proof.
  destruct (typeAll_last texts last st) as [st' [Ht Hp]].
  exists st'. split; [exact Ht|].
  destruct (timerFires_fetches enc net st') as [Hf Hn]. rewrite Hf, Hp.
  split; [destruct (String.length last <? 3)%nat; reflexivity|].
  destruct (timerFires_fetches enc net (fst (timerFires enc net st'))) as [Hf' _].
  rewrite Hf', Hn. reflexivity.
Qed.

(** X26 (the search ignores the status of the reply): when the timer fires,
    any reply whose body parses as JSON becomes the suggestions, whatever its
    status and whatever the parsed value is, and the dropdown is switched on;
    a rejected fetch or an unparsable body leaves the suggestions as they
    were and logs one console error. *)
Theorem search_reply_ignores_status (enc : value -> string) (net : network)
    (text : value) (st : PlacesState) :
  pending st = Some text ->
  match net (search_request enc text) with
  | FetchResolved res =>
      match json res with
      | inr data =>
          timerFires enc net st
            = ({| suggestions := data; showSuggestions := true; pending := None |},
               [EFetch (search_request enc text)])
      | inl e =>
          fst (timerFires enc net st)
            = {| suggestions := suggestions st; showSuggestions := showSuggestions st;
                 pending := None |} /\
          console_errors (snd (timerFires enc net st)) = 1%nat
      end
  | FetchRejected =>
      fst (timerFires enc net st)
        = {| suggestions := suggestions st; showSuggestions := showSuggestions st;
             pending := None |} /\
      console_errors (snd (timerFires enc net st)) = 1%nat
  end.
Proof.
  intros Hp. unfold timerFires, fetch. rewrite Hp.
  destruct (net _) as [|[o s t j]]; simpl; [split; reflexivity|].
  destruct j; simpl; [split; reflexivity | reflexivity].
Qed.

Lemma search_reply_ignores_status_witness :
  timerFires (fun _ => "Hyd")
    (fun _ => FetchResolved
       {| ok := false; status := 503; text := inr "";
          json := inr (VObj [("error", VStr "busy")]) |})
    {| suggestions := VArr []; showSuggestions := false; pending := Some (VStr "Hyd") |}
  = ({| suggestions := VObj [("error", VStr "busy")]; showSuggestions := true;
        pending := None |},
     [EFetch (search_request (fun _ => "Hyd") (VStr "Hyd"))]).
Proof.
  exact (search_reply_ignores_status (fun _ => "Hyd")
    (fun _ => FetchResolved
       {| ok := false; status := 503; text := inr "";
          json := inr (VObj [("error", VStr "busy")]) |})
    (VStr "Hyd")
    {| suggestions := VArr []; showSuggestions := false; pending := Some (VStr "Hyd") |}
    eq_refl).
Defined.


(** X27 (a chosen place is searched again): choosing a suggestion whose
    name has at least three code units and differs from the text in the input
    puts the name into the input and the parsed coordinates into the
    application, empties and hides the dropdown, and, because the text
    changed, arms the timer again: when it fires, the name is searched and
    the dropdown is shown again with the reply.  When the name is the text
    already in the input, no timer is armed by the choice. *)
Theorem chosen_place_is_searched_again (parseFloat : value -> number)
    (enc : value -> string) (net : network)
    (place : value) (name typed : string) (app : AppState) (st : PlacesState)
    (res : response) (data : value) :
  nullish place = false ->
  optget place "display_name" = VStr name ->
  fromLocation app = VStr typed ->
  (3 <= String.length name)%nat ->
  net (search_request enc (VStr name)) = FetchResolved res ->
  json res = inr data ->
  exists app' st',
    chooseFrom parseFloat place app st = Normal (app', st') /\
    fromLocation app' = VStr name /\
    fromCoords app'
      = coords (parseFloat (optget place "lat")) (parseFloat (optget place "lon")) /\
    suggestions st' = VArr [] /\ showSuggestions st' = false /\
    dropdown st' = Normal None /\
    (typed <> name ->
       pending st' = Some (VStr name) /\
       timerFires enc net st'
         = ({| suggestions := data; showSuggestions := true; pending := None |},
            [EFetch (search_request enc (VStr name))])) /\
    (typed = name -> pending st' = pending st).
Proof.
  intros Hn Hname Htyped Hlen Hnet Hj.
  unfold chooseFrom, handleSelect. rewrite !(get_optget place _ Hn), Hname.
  cbn [cbind].
  assert (Hfrom : forall c a, fromLocation (previewEffect (setFromCoords c (setFromLocation (VStr name) a)))
                   = VStr name).
  { intros c a. unfold previewEffect. destruct (_ && _); reflexivity. }
  assert (Hco : forall c a, fromCoords (previewEffect (setFromCoords c (setFromLocation (VStr name) a)))
                   = c).
  { intros c a. unfold previewEffect. destruct (_ && _); reflexivity. }
  rewrite Hfrom, Htyped. unfold valueEffectOnChange. cbn [value_changed cbind].
  destruct (String.eqb_spec typed name) as [Heq|Hne]; cbn [negb cbind].
  - eexists _, _. split; [reflexivity|].
    rewrite Hfrom, Hco. cbn [suggestions showSuggestions pending].
    do 5 (split; [reflexivity|]). split.
    + intros Hdiff. contradiction.
    + intros _. reflexivity.
  - rewrite valueEffect_text.
    replace (String.length name <? 3)%nat with false
      by (symmetry; apply Nat.ltb_ge; exact Hlen).
    cbn [cbind]. eexists _, _. split; [reflexivity|].
    rewrite Hfrom, Hco. cbn [suggestions showSuggestions pending].
    do 5 (split; [reflexivity|]). split.
    + intros _. split; [reflexivity|].
      unfold timerFires, fetch. cbn [pending]. rewrite Hnet. simpl. rewrite Hj.
      reflexivity.
    + intros Heq. contradiction.
Qed.

Lemma chosen_place_is_searched_again_witness :
  exists app' st',
    chooseFrom (fun _ => Fin (inject_Z 17))
      (VObj [("display_name", VStr "Hyderabad"); ("lat", VStr "17"); ("lon", VStr "17")])
      (setFromLocation (VStr "Hyd") initial) placesInitial = Normal (app', st') /\
    showSuggestions
      (fst (timerFires (fun _ => "Hyderabad")
              (fun _ => FetchResolved
                 {| ok := true; status := 200; text := inr ""; json := inr (VArr []) |})
              st')) = true.
Proof.
  destruct (chosen_place_is_searched_again (fun _ => Fin (inject_Z 17))
              (fun _ => "Hyderabad")
              (fun _ => FetchResolved
                 {| ok := true; status := 200; text := inr ""; json := inr (VArr []) |})
              (VObj [("display_name", VStr "Hyderabad"); ("lat", VStr "17");
                     ("lon", VStr "17")])
              "Hyderabad" "Hyd" (setFromLocation (VStr "Hyd") initial) placesInitial
              {| ok := true; status := 200; text := inr ""; json := inr (VArr []) |}
              (VArr []) eq_refl eq_refl eq_refl ltac:(simpl; lia) eq_refl eq_refl)
    as [app' [st' [H1 [_ [_ [_ [_ [_ [H7 _]]]]]]]]].
  destruct (H7 ltac:(discriminate)) as [_ H8].
  exists app', st'. split; [exact H1|]. rewrite H8. reflexivity.
Defined.


(** ** The reply of the search in the dropdown *)

Lemma display_names_normal (places : list value) :
  Forall (fun p => nullish p = false) places ->
  map_completion (fun place => get place "display_name") places
    = Normal (map (fun place => optget place "display_name") places).
Proof.
  induction 1 as [|p places Hp Hall IH]; simpl; [reflexivity|].
  rewrite (get_optget p _ Hp), IH. reflexivity.
Qed.

Lemma timerFires_reply (enc : value -> string) (net : network) (text : value)
    (st : PlacesState) (res : response) (data : value) :
  pending st = Some text ->
  net (search_request enc text) = FetchResolved res ->
  json res = inr data ->
  fst (timerFires enc net st)
    = {| suggestions := data; showSuggestions := true; pending := None |}.
Proof.
  intros Hp Hnet Hj. unfold timerFires, fetch. rewrite Hp, Hnet. simpl.
  rewrite Hj. reflexivity.
Qed.

(** X28 (what the dropdown makes of the reply): after the timer fired and
    the reply parsed, an array of places is listed by the display names of
    its elements, in the order of the reply, and an empty array shows no
    dropdown; an object without a [length] field (such as an error report)
    shows no dropdown either; the reply [null] makes the next render throw a
    TypeError. *)
Theorem dropdown_lists_the_reply (enc : value -> string) (net : network)
    (text : value) (st : PlacesState) (res : response) (data : value) :
  pending st = Some text ->
  net (search_request enc text) = FetchResolved res ->
  json res = inr data ->
  (forall places,
     data = VArr places ->
     Forall (fun p => nullish p = false) places ->
     dropdown (fst (timerFires enc net st))
       = Normal (match places with
                 | [] => None
                 | _ => Some (map (fun place => optget place "display_name") places)
                 end)) /\
  (forall fields,
     data = VObj fields -> assoc "length" fields = None ->
     dropdown (fst (timerFires enc net st)) = Normal None) /\
  (data = VNull -> dropdown (fst (timerFires enc net st)) = Throw TypeError).
Proof.
  intros Hp Hnet Hj. rewrite (timerFires_reply enc net text st res data Hp Hnet Hj).
  split; [|split].
  - intros places -> Hall. unfold dropdown.
    cbn [showSuggestions suggestions get String.eqb Ascii.eqb Bool.eqb cbind].
    rewrite js_gt_length. cbn [cbind].
    destruct places as [|p places]; [reflexivity|]. cbn [length Nat.eqb negb].
    rewrite (display_names_normal _ Hall). reflexivity.
  - intros fields -> Hlen. unfold dropdown. cbn [showSuggestions suggestions get cbind].
    rewrite Hlen. reflexivity.
  - intros ->. reflexivity.
Qed.

Lemma dropdown_lists_the_reply_witness :
  dropdown
    (fst (timerFires (fun _ => "Hyd")
            (fun _ => FetchResolved
               {| ok := true; status := 200; text := inr "";
                  json := inr (VArr [VObj [("display_name", VStr "Hyderabad")];
                                     VObj [("display_name", VStr "Hyderguda")]]) |})
            {| suggestions := VArr []; showSuggestions := false;
               pending := Some (VStr "Hyd") |}))
  = Normal (Some [VStr "Hyderabad"; VStr "Hyderguda"]).
Proof.
  exact (proj1 (dropdown_lists_the_reply (fun _ => "Hyd")
    (fun _ => FetchResolved
       {| ok := true; status := 200; text := inr "";
          json := inr (VArr [VObj [("display_name", VStr "Hyderabad")];
                             VObj [("display_name", VStr "Hyderguda")]]) |})
    (VStr "Hyd")
    {| suggestions := VArr []; showSuggestions := false; pending := Some (VStr "Hyd") |}
    _ _ eq_refl eq_refl eq_refl) _ eq_refl ltac:(repeat constructor)).
Defined.

(** ** Display settings *)

Lemma step_data_cells (net : network) (ev : ui_event) (st st' : AppState) :
  data_cells st = data_cells st' ->
  events (step net ev st) = events (step net ev st') /\
  data_cells (after (step net ev st)) = data_cells (after (step net ev st')).
Proof.
  destruct st as [models model battery from to fromC toC result preview busy err dark filter].
  destruct st' as [models' model' battery' from' to' fromC' toC' result' preview' busy' err'
                   dark' filter'].
  unfold data_cells. cbn. intros H. injection H as -> -> -> -> -> -> -> -> -> -> ->.
  destruct ev; cbn [step finish after events]; try (split; reflexivity).
  - unfold loadModels.
    destruct (getEvModels net) as [[data|e|] tr]; try (split; reflexivity).
    destruct (get data "error") as [err0|e|]; try (split; reflexivity).
    destruct (truthy err0); [split; reflexivity|].
    destruct (cbind _ _) as [[|]|e|]; try (split; reflexivity).
    destruct (index data 0); split; reflexivity.
  - unfold onModelChange. cbn [App.evModels].
    destruct models'; try (split; reflexivity).
    destruct (find_model id items); split; reflexivity.
  - unfold previewEffect. cbn.
    repeat match goal with |- context [if ?c then _ else _] => destruct c end;
      split; reflexivity.
  - unfold previewEffect. cbn.
    repeat match goal with |- context [if ?c then _ else _] => destruct c end;
      split; reflexivity.
  - unfold handleGetRoute, fields_missing.
    cbn [App.fromLocation App.toLocation App.selectedModel App.batteryPercent].
    destruct (_ || _); [split; reflexivity|].
    destruct (get model' "ev_model_id") as [id|e|]; try (split; reflexivity).
    destruct (getPrediction net _ _ id _) as [[v|e|] tr]; try (split; reflexivity).
    destruct (get v "error") as [err0|e|]; try (split; reflexivity).
    destruct (truthy err0); split; reflexivity.
Qed.

Lemma step_display_only (net : network) (ev : ui_event) (st : AppState) :
  display_only ev = true ->
  events (step net ev st) = [] /\
  data_cells (after (step net ev st)) = data_cells st.
Proof. destruct ev; try discriminate; intros _; split; reflexivity. Qed.

Lemma run_data_cells (net : network) (evs : list ui_event) (st st' : AppState) :
  data_cells st = data_cells st' ->
  snd (run net evs st)
    = snd (run net (List.filter (fun ev => negb (display_only ev)) evs) st') /\
  data_cells (fst (run net evs st))
    = data_cells (fst (run net (List.filter (fun ev => negb (display_only ev)) evs) st')).
Proof.
  revert st st'. induction evs as [|ev evs IH]; intros st st' H.
  - split; [reflexivity | exact H].
  - cbn [List.filter run]. destruct (display_only ev) eqn:Hd; cbn [negb].
    + destruct (step_display_only net ev st Hd) as [He Hc].
      specialize (IH (after (step net ev st)) st' (eq_trans Hc H)).
      destruct (run net evs (after (step net ev st))) as [s1 t1].
      rewrite He. cbn [fst snd app] in *. exact IH.
    + destruct (step_data_cells net ev st st' H) as [He Hc].
      specialize (IH _ _ Hc). cbn [run].
      destruct (run net evs (after (step net ev st))) as [s1 t1].
      destruct (run net _ (after (step net ev st'))) as [s2 t2].
      cbn [fst snd] in *. destruct IH as [-> IH2]. rewrite He. split; [reflexivity|exact IH2].
Qed.

(** X29 (display settings never reach the back end): in any sequence of
    user actions, the clicks on the dark-mode button and on the charger
    filter change no request that is sent, no console output of the
    handlers, and no cell of the state other than [darkMode] and
    [chargerFilter]: the sequence without those clicks causes the same events
    and ends in the same data. *)
Theorem display_settings_do_not_change_the_route (net : network)
    (evs : list ui_event) (st : AppState) :
  let data_only := List.filter (fun ev => negb (display_only ev)) evs in
  snd (run net evs st) = snd (run net data_only st) /\
  data_cells (fst (run net evs st)) = data_cells (fst (run net data_only st)).
Proof. cbv zeta. apply run_data_cells. reflexivity. Qed.
